(** * ChallengeRepository: the data-access layer of the challenge table

    A shallow embedding of [src/repositories/challengeRepository.js].

    The repository is a class of seven [async] methods.  Each one awaits a
    call of the record-store provider (the ORM model [Challenge]) inside a
    [try] block and translates what the provider throws in the [catch]
    block.  The embedding keeps that shape:

    - JavaScript values, objects and strings are modelled in [Module JS];
    - an [async] method is a computation in a state-and-exception monad
      over the provider's state ([Module Async]): awaiting a rejected
      promise is a [Throw];
    - the provider is an interface ([Class Provider]); the methods are
      written once against it and are then run on particular providers
      (an in-memory table, a provider that is down, a provider that counts
      its queries). *)

From stdpp Require Import gmap strings list fin_maps sorting.
From Stdlib Require Import Ascii.

Local Open Scope Z_scope.

(** ** JavaScript values *)

Module JS.

(** The values the methods receive and store.  Numbers are the integers
    (identifiers, foreign keys) and [NaN]; a [Date] is its epoch time;
    every other object (array, function, wrapper object) is an opaque
    reference. *)
Inductive value : Type :=
| VUndefined
| VNull
| VBool (b : bool)
| VNum (n : Z)
| VNaN
| VStr (s : string)
| VDate (t : Z)
| VObj (ref : positive).

#[global] Instance value_eq_dec : EqDecision value.
Proof. solve_decision. Defined.

(** A plain object: own keys to values.  A string is the UTF-8 text of the
    JavaScript string, so [===] on strings is equality and a template
    literal is concatenation. *)
Abbreviation obj := (gmap string value).

(** [o.k]: reading a key that is absent gives [undefined]. *)
Definition get (o : obj) (k : string) : value :=
  default VUndefined (o !! k).

(** [ToBoolean]. *)
Definition truthy (v : value) : bool :=
  match v with
  | VUndefined | VNull | VNaN => false
  | VBool b => b
  | VNum n => negb (n =? 0)
  | VStr s => negb (String.eqb s "")
  | VDate _ | VObj _ => true
  end.

(** [typeof v]. *)
Definition typeof (v : value) : string :=
  match v with
  | VUndefined => "undefined"
  | VNull | VDate _ | VObj _ => "object"
  | VBool _ => "boolean"
  | VNum _ | VNaN => "number"
  | VStr _ => "string"
  end.

(** [a === b]: [NaN] is not equal to itself, objects are equal by
    reference. *)
Definition strict_eq (a b : value) : bool :=
  match a, b with
  | VNaN, _ | _, VNaN => false
  | _, _ => bool_decide (a = b)
  end.

(** *** Strings: [String.prototype.trim] *)

(** A character given by the bytes of its UTF-8 encoding. *)
Definition utf8 (bytes : list N) : string :=
  String.string_of_list_ascii (Ascii.ascii_of_N <$> bytes).

(** The characters [trim] removes: ECMAScript's WhiteSpace and
    LineTerminator. *)
Definition whitespace : list string :=
  utf8 <$>
    [ [9%N]; [10%N]; [11%N]; [12%N]; [13%N]; [32%N]   (* TAB LF VT FF CR SP *)
    ; [194; 160]%N                                    (* U+00A0 *)
    ; [225; 154; 128]%N                               (* U+1680 *)
    ; [226; 128; 128]%N; [226; 128; 129]%N; [226; 128; 130]%N
    ; [226; 128; 131]%N; [226; 128; 132]%N; [226; 128; 133]%N
    ; [226; 128; 134]%N; [226; 128; 135]%N; [226; 128; 136]%N
    ; [226; 128; 137]%N; [226; 128; 138]%N            (* U+2000 .. U+200A *)
    ; [226; 128; 168]%N; [226; 128; 169]%N            (* U+2028 U+2029 *)
    ; [226; 128; 175]%N                               (* U+202F *)
    ; [226; 129; 159]%N                               (* U+205F *)
    ; [227; 128; 128]%N                               (* U+3000 *)
    ; [239; 187; 191]%N ].                            (* U+FEFF *)

(** [strip_prefix p s]: what follows [p] in [s], when [s] starts with [p]. *)
Fixpoint strip_prefix (p s : string) : option string :=
  match p, s with
  | EmptyString, _ => Some s
  | String a p', String b s' =>
      if Ascii.eqb a b then strip_prefix p' s' else None
  | String _ _, EmptyString => None
  end.

(** One character of [chars] taken off the front of [s]. *)
Fixpoint strip_one (chars : list string) (s : string) : option string :=
  match chars with
  | [] => None
  | c :: chars' =>
      match strip_prefix c s with
      | Some s' => Some s'
      | None => strip_one chars' s
      end
  end.

(** Characters of [chars] taken off the front for as long as there is one;
    [n] bounds the number of characters removed. *)
Fixpoint strip_all (chars : list string) (n : nat) (s : string) : string :=
  match n with
  | O => s
  | S n' =>
      match strip_one chars s with
      | Some s' => strip_all chars n' s'
      | None => s
      end
  end.

Definition trim_start (s : string) : string :=
  strip_all whitespace (String.length s) s.

(** At the end of the text the same characters are removed, read
    backwards. *)
Definition trim_end (s : string) : string :=
  String.rev
    (strip_all (String.rev <$> whitespace) (String.length s) (String.rev s)).

Definition trim (s : string) : string := trim_end (trim_start s).

#[global] Arguments whitespace : simpl never.

End JS.

Export JS.

(** ** Errors and [async] computations *)

(** An [Error] object.  [name] tells the errors the provider raises
    (a connection error, a database error) from the plain [Error]s the
    repository builds with [new Error(message)]. *)
Record error : Type := mkError { name : string; message : string }.

#[global] Instance error_eq_dec : EqDecision error.
Proof. solve_decision. Defined.

(** [new Error(msg)] *)
Definition Error (msg : string) : error := mkError "Error" msg.

Module Async.

(** How an awaited computation ends: with a value, or with a thrown error
    (a rejected promise). *)
Inductive outcome (A : Type) : Type :=
| Ok (a : A)
| Throw (e : error).
#[global] Arguments Ok {A} a.
#[global] Arguments Throw {A} e.

(** An [async] function over a provider whose state is [S]. *)
Definition async (S A : Type) : Type := S → outcome A * S.

Definition ret {S A} (a : A) : async S A := λ s, (Ok a, s).

Definition throw {S A} (e : error) : async S A := λ s, (Throw e, s).

Definition bind {S A B} (m : async S A) (k : A → async S B) : async S B :=
  λ s, match m s with
       | (Ok a, s') => k a s'
       | (Throw e, s') => (Throw e, s')
       end.

(** [try { body } catch (error) { handler }] *)
Definition try_catch {S A} (body : async S A) (handler : error → async S A)
  : async S A :=
  λ s, match body s with
       | (Ok a, s') => (Ok a, s')
       | (Throw e, s') => handler e s'
       end.

End Async.

Export Async.

(** [x ← m; k] reads [const x = await m; k]. *)
#[global] Instance async_ret {S} : MRet (async S) := λ A, ret.
#[global] Instance async_bind {S} : MBind (async S) := λ A B k m, bind m k.

(** ** The record-store provider *)

(** [{ [Op.like]: pattern }] *)
Inductive condition : Type :=
| Like (pattern : string).

(** The [where] option of [findAll]: a plain object, every key of which is
    an exact match, or [{ [Op.or]: [ { column: condition }, ... ] }]. *)
Inductive where_clause : Type :=
| Where (fields : obj)
| WhereOr (alternatives : list (string * condition)).

Inductive direction : Type := ASC | DESC.

(** The options object of [findAll]. *)
Record find_options : Type := FindOptions {
  opt_where : where_clause;
  opt_order : list (string * direction)
}.

(** What the repository calls on the model [Challenge] and on its
    instances.  [S] is the state of the store, [I] the type of the model's
    instances. *)
Class Provider (S I : Type) : Type := {
  create : obj → async S I;                  (* Challenge.create(data) *)
  findAll : find_options → async S (list I); (* Challenge.findAll(options) *)
  findByPk : value → async S (option I);     (* Challenge.findByPk(id), or null *)
  update : I → obj → async S I;              (* challenge.update(values) *)
  destroy : I → async S ();                  (* challenge.destroy() *)
  toJSON : I → obj                           (* challenge.toJSON() *)
}.

(** ** The repository *)

Module ChallengeRepository.

(** The texts of the errors. *)
Definition CREATE_FAILED : string := "Lỗi khi tạo thử thách: ".
Definition LIST_FAILED : string := "Lỗi khi lấy danh sách thử thách: ".
Definition GET_NOT_FOUND : string := "Không tìm thấy thử thách với ID đã cho.".
Definition GET_FAILED : string := "Lỗi khi lấy thử thách theo ID: ".
Definition UPDATE_NOT_FOUND : string := "Không tìm thấy thử thách để cập nhật.".
Definition UPDATE_FAILED : string := "Lỗi khi cập nhật thử thách: ".
Definition DELETE_NOT_FOUND : string := "Không tìm thấy thử thách để xóa.".
Definition DELETE_FAILED : string := "Lỗi khi xóa thử thách: ".
Definition DELETED : string := "Thử thách đã được xóa thành công.".
Definition SEARCH_FAILED : string := "Lỗi khi tìm kiếm thử thách: ".
Definition STATUS_EMPTY : string := "Trạng thái không được để trống.".
Definition BY_STATUS_FAILED : string := "Lỗi khi lấy thử thách theo trạng thái: ".

Section Methods.

Context {S I : Type} {provider : Provider S I}.

(** Lines 11-19. *)
Definition createChallenge (challengeData : obj) : async S obj :=
  try_catch
    (challenge ← create challengeData;
     ret (toJSON challenge))
    (λ error, throw (Error (CREATE_FAILED +:+ message error))).

(** The [whereClause] object of [getAllChallenges], lines 29-40. *)
Definition whereClause (filters : obj) : obj :=
  let w0 : obj := ∅ in
  let w1 := if truthy (get filters "status")
            then <["status" := get filters "status"]> w0 else w0 in
  let w2 := if truthy (get filters "community_member_id")
            then <["community_member_id" := get filters "community_member_id"]> w1
            else w1 in
  if negb (strict_eq (get filters "is_weekly") VUndefined)
  then <["is_weekly" := get filters "is_weekly"]> w2 else w2.

(** Lines 27-54.  [filters] is [None] when the argument is left out or
    [undefined]: the default [{}] is taken.  The argument is an object or is
    left out; a call with [null], for which reading [filters.status] throws
    inside [try] before the provider is called, is not in this type. *)
Definition getAllChallenges (filters : option obj) : async S (list obj) :=
  let filters := default ∅ filters in
  try_catch
    (challenges ← findAll (FindOptions (Where (whereClause filters))
                             [("created_at", DESC)]);
     ret (toJSON <$> challenges))
    (λ error, throw (Error (LIST_FAILED +:+ message error))).

(** Lines 62-80. *)
Definition getChallengeById (id : value) : async S obj :=
  try_catch
    (challenge ← findByPk id;
     match challenge with
     | None => throw (Error GET_NOT_FOUND)
     | Some challenge => ret (toJSON challenge)
     end)
    (λ error,
       if String.eqb (message error) GET_NOT_FOUND
       then throw error
       else throw (Error (GET_FAILED +:+ message error))).

(** Lines 89-107. *)
Definition updateChallenge (id : value) (updateData : obj) : async S obj :=
  try_catch
    (challenge ← findByPk id;
     match challenge with
     | None => throw (Error UPDATE_NOT_FOUND)
     | Some challenge =>
         updatedChallenge ← update challenge updateData;
         ret (toJSON updatedChallenge)
     end)
    (λ error,
       if String.eqb (message error) UPDATE_NOT_FOUND
       then throw error
       else throw (Error (UPDATE_FAILED +:+ message error))).

(** Lines 115-130. *)
Definition deleteChallenge (id : value) : async S obj :=
  try_catch
    (challenge ← findByPk id;
     match challenge with
     | None => throw (Error DELETE_NOT_FOUND)
     | Some challenge =>
         destroy challenge;;
         ret (<["id" := id]>
                (<["deleted" := VBool true]> {["message" := VStr DELETED]}))
     end)
    (λ error,
       if String.eqb (message error) DELETE_NOT_FOUND
       then throw error
       else throw (Error (DELETE_FAILED +:+ message error))).

(** The LIKE pattern of [searchChallenges]: [`%${searchTerm}%`]. *)
Definition search_pattern (searchTerm : string) : string :=
  "%" +:+ searchTerm +:+ "%".

(** Lines 138-157. *)
Definition searchChallenges (searchTerm : value) : async S (list obj) :=
  try_catch
    (if negb (truthy searchTerm)
        || negb (String.eqb (typeof searchTerm) "string")
        || match searchTerm with
           | VStr s => String.eqb (trim s) ""
           | _ => false     (* not reached: the typeof test comes first *)
           end
     then ret []
     else
       let term := match searchTerm with VStr s => s | _ => "" end in
       challenges ← findAll (FindOptions
                      (WhereOr [ ("title", Like (search_pattern term))
                               ; ("description", Like (search_pattern term)) ])
                      [("created_at", DESC)]);
       ret (toJSON <$> challenges))
    (λ error, throw (Error (SEARCH_FAILED +:+ message error))).

(** Lines 168-181. *)
Definition getChallengesByStatus (status : value) : async S (list obj) :=
  try_catch
    (if negb (truthy status)
     then throw (Error STATUS_EMPTY)
     else
       challenges ← findAll (FindOptions (Where {["status" := status]})
                                [("created_at", DESC)]);
       ret (toJSON <$> challenges))
    (λ error, throw (Error (BY_STATUS_FAILED +:+ message error))).

End Methods.

End ChallengeRepository.

Export ChallengeRepository.

(** ** The query vocabulary of the provider *)

(** Modelled from the spec: what the provider does with a [where] and an
    [order] option is not in the repository's source.  The spec names an
    exact match on a key, a "contains" pattern match (the SQL LIKE that
    [Op.like] stands for) and an order by [created_at] descending; this
    module gives them their meaning on a table of rows. *)
Module Query.

(** *** LIKE patterns *)

(** The number of bytes of the UTF-8 character that starts with byte [c];
    [0] when no character starts with [c]. *)
Definition char_width (c : Ascii.ascii) : nat :=
  let n := Ascii.N_of_ascii c in
  if (n <? 128)%N then 1%nat
  else if (n <? 192)%N then 0%nat
  else if (n <? 224)%N then 2%nat
  else if (n <? 240)%N then 3%nat
  else if (n <? 248)%N then 4%nat
  else 0%nat.

Fixpoint drop_bytes (n : nat) (s : string) : option string :=
  match n, s with
  | O, _ => Some s
  | S n', String _ s' => drop_bytes n' s'
  | S _, EmptyString => None
  end.

(** [s] without its first character. *)
Definition skip_char (s : string) : option string :=
  match s with
  | EmptyString => None
  | String c s' =>
      match char_width c with
      | O => None
      | S n => drop_bytes n s'
      end
  end.

(** SQL's [text LIKE pattern]: [%] stands for any run of characters, [_] for
    any one character, every other character for itself.  Letter case
    counts, and no escape character is in force. *)
Fixpoint like_match (pattern text : string) {struct pattern} : bool :=
  match pattern with
  | EmptyString =>
      match text with EmptyString => true | String _ _ => false end
  | String c pattern' =>
      if Ascii.eqb c "%"%char then
        (fix any_run (text : string) : bool :=
           like_match pattern' text
           || match text with
              | EmptyString => false
              | String _ text' => any_run text'
              end) text
      else if Ascii.eqb c "_"%char then
        match skip_char text with
        | Some text' => like_match pattern' text'
        | None => false
        end
      else
        match text with
        | String d text' => Ascii.eqb c d && like_match pattern' text'
        | EmptyString => false
        end
  end.

(** *** Rows and conditions *)

(** The value of a column of a row; a column that was never set is NULL. *)
Definition column (row : obj) (k : string) : value :=
  default VNull (row !! k).

Definition holds (c : condition) (v : value) : bool :=
  match c, v with
  | Like pattern, VStr text => like_match pattern text
  | Like _, _ => false
  end.

(** A row satisfies [Where fields] when every key of [fields] is matched
    exactly, and [WhereOr alternatives] when one alternative holds. *)
Definition satisfies (w : where_clause) (row : obj) : bool :=
  match w with
  | Where fields =>
      bool_decide (map_Forall (λ k v, column row k = v) fields)
  | WhereOr alternatives =>
      existsb (λ '(k, c), holds c (column row k)) alternatives
  end.

(** *** Ordering *)

(** The rank of a value in an ORDER BY: numbers and dates by their value,
    everything else ranks with NULL. *)
Definition rank (v : value) : option Z :=
  match v with
  | VNum n | VDate n => Some n
  | _ => None
  end.

(** [rank_le a b]: [a] sorts no later than [b] ascending; NULL first. *)
Definition rank_le (a b : option Z) : Prop :=
  match a, b with
  | None, _ => True
  | Some _, None => False
  | Some x, Some y => x ≤ y
  end.

#[global] Instance rank_le_dec : RelDecision rank_le.
Proof. intros [x|] [y|]; simpl; apply _. Defined.

(** [before k d r1 r2]: row [r1] may come before row [r2] in
    [ORDER BY k d]. *)
Definition before (k : string) (d : direction) (r1 r2 : obj) : Prop :=
  match d with
  | ASC => rank_le (rank (column r1 k)) (rank (column r2 k))
  | DESC => rank_le (rank (column r2 k)) (rank (column r1 k))
  end.

#[global] Instance before_dec k d : RelDecision (before k d).
Proof. intros r1 r2; destruct d; simpl; apply _. Defined.

(** ORDER BY a list of columns: the first is the major key. *)
Definition order_by (order : list (string * direction)) (rows : list obj)
  : list obj :=
  foldr (λ '(k, d) sorted, merge_sort (before k d) sorted) rows order.

End Query.

Export Query.

(** ** An in-memory store *)

(** Modelled from the spec: the record-store provider itself (the ORM model
    [Challenge] of [models/challenge] and the storage engine behind it) is
    outside the repository's source.  This is the generic provider of the
    spec: a table of rows with [create], [findAll(where, order)],
    [findByPk], an instance [update] that changes the fields it is given
    and leaves the others, and an instance [destroy]. *)
Module MemStore.

Record store : Type := Store {
  table : list obj;     (* the rows *)
  next_id : Z;          (* the identifier the next row is given *)
  clock : Z             (* the time the next row is stamped with *)
}.

Definition has_id (id : value) (row : obj) : bool :=
  bool_decide (column row "id" = id).

Definition mem_create (data : obj) : async store obj :=
  λ st,
    let row := <["id" := VNum (next_id st)]>
                 (<["created_at" := VDate (clock st)]> data) in
    (Ok row, Store (table st ++ [row]) (next_id st + 1) (clock st + 1)).

Definition mem_findAll (options : find_options) : async store (list obj) :=
  λ st,
    (Ok (order_by (opt_order options)
           (filter (λ row, satisfies (opt_where options) row = true) (table st))),
     st).

Definition mem_findByPk (id : value) : async store (option obj) :=
  λ st, (Ok (find (has_id id) (table st)), st).

(** [instance.update(values)]: the fields given replace the stored ones,
    the others stay.  The identifier is immutable once assigned (spec, data
    model): a value given for [id] is not applied, so a record keeps its
    identifier and no two records come to share one through an update. *)
Definition mem_update (instance values : obj) : async store obj :=
  λ st,
    let values : obj := delete "id" values in
    let change (row : obj) : obj :=
      if has_id (column instance "id") row then values ∪ row else row in
    (Ok (values ∪ instance),
     Store (change <$> table st) (next_id st) (clock st)).

Definition mem_destroy (instance : obj) : async store () :=
  λ st,
    (Ok (),
     Store (filter (λ row, has_id (column instance "id") row = false) (table st))
           (next_id st) (clock st)).

#[global] Instance mem_provider : Provider store obj := {|
  create := mem_create;
  findAll := mem_findAll;
  findByPk := mem_findByPk;
  update := mem_update;
  destroy := mem_destroy;
  toJSON := id
|}.

End MemStore.

Export MemStore.

(** ** A provider that is down *)

(** Every call of the provider is rejected with [failure]. *)
Definition down_provider (failure : error) : Provider () () := {|
  create := λ _, throw failure;
  findAll := λ _, throw failure;
  findByPk := λ _, throw failure;
  update := λ _ _, throw failure;
  destroy := λ _, throw failure;
  toJSON := λ _, ∅
|}.

(** ** A provider that counts its queries *)

Section Counting.

Context {S I : Type} (P : Provider S I).

(** Runs [m] on the store and counts the call. *)
Definition counted {A} (m : async S A) : async (S * nat) A :=
  λ '(s, n), let '(r, s') := m s in (r, (s', Datatypes.S n)).

Definition counting_provider : Provider (S * nat) I := {|
  create := λ data, counted (create data);
  findAll := λ options, counted (findAll options);
  findByPk := λ id, counted (findByPk id);
  update := λ instance values, counted (update instance values);
  destroy := λ instance, counted (destroy instance);
  toJSON := toJSON
|}.

End Counting.

(** ** The vocabulary of the specification *)

(** [join chars]: the text made of the characters [chars]. *)
Definition join (chars : list string) : string :=
  foldr String.append "" chars.

(** A text of whitespace characters only (the empty text is one). *)
Definition whitespace_only (s : string) : Prop :=
  ∃ chars, Forall (λ c, c ∈ whitespace) chars ∧ s = join chars.

(** A search term that is empty, blank or not a string. *)
Definition blank (term : value) : Prop :=
  match term with
  | VStr s => s = "" ∨ whitespace_only s
  | _ => True
  end.

(** The two characters that LIKE reads as wildcards. *)
Definition wildcard (c : ascii) : bool :=
  Ascii.eqb c "%" || Ascii.eqb c "_".

(** A term without wildcards. *)
Fixpoint literal (term : string) : bool :=
  match term with
  | EmptyString => true
  | String c term' => negb (wildcard c) && literal term'
  end.

(** [text] contains [term] as a substring. *)
Definition contains (text term : string) : Prop :=
  ∃ front back, text = front +:+ term +:+ back.

(** [contains], computed: [term] starts [text] or is contained further on. *)
Fixpoint containsb (text term : string) : bool :=
  match strip_prefix term text with
  | Some _ => true
  | None =>
      match text with
      | EmptyString => false
      | String _ text' => containsb text' term
      end
  end.

(** A text of exactly one character. *)
Definition one_char (s : string) : Prop := skip_char s = Some "".

(** The title or the description of [row] is a text with property [P]. *)
Definition title_or_description (P : string → Prop) (row : obj) : Prop :=
  (∃ text, column row "title" = VStr text ∧ P text)
  ∨ (∃ text, column row "description" = VStr text ∧ P text).

(** The keys of a filter set that [getAllChallenges] reads. *)
Definition recognized : list string :=
  ["status"; "community_member_id"; "is_weekly"].

(** Newest first: [created_at] descending. *)
Definition newest_first (l : list obj) : Prop :=
  StronglySorted (before "created_at" DESC) l.

(** The rows a filter set lets through: an exact match on each of the three
    keys that is applied. *)
Definition selected (filters row : obj) : Prop :=
  (truthy (get filters "status") = true →
     column row "status" = get filters "status")
  ∧ (truthy (get filters "community_member_id") = true →
     column row "community_member_id" = get filters "community_member_id")
  ∧ (get filters "is_weekly" ≠ VUndefined →
     column row "is_weekly" = get filters "is_weekly").

#[global] Instance selected_dec filters row : Decision (selected filters row).
Proof. unfold selected. apply _. Defined.

(** The number of provider calls counted when a run on a counting provider
    ends. *)
Definition calls {T A : Type} (r : outcome A * (T * nat)) : nat := snd (snd r).

(** ** Sample data *)

Module Sample.

Definition challenge1 : obj :=
  <["id" := VNum 1]> (<["title" := VStr "abc"]>
  (<["description" := VStr "first"]> (<["status" := VStr "pending"]>
  (<["is_weekly" := VBool false]> (<["community_member_id" := VNum 7]>
  {["created_at" := VDate 10]}))))).

Definition challenge2 : obj :=
  <["id" := VNum 2]> (<["title" := VStr "weekly run"]>
  (<["description" := VStr "a_c and more"]> (<["status" := VStr "done"]>
  (<["is_weekly" := VBool true]> (<["community_member_id" := VNum 8]>
  {["created_at" := VDate 20]}))))).

Definition challenge3 : obj :=
  <["id" := VNum 3]> (<["title" := VStr "50% off"]>
  (<["description" := VStr "third"]> (<["status" := VStr "pending"]>
  (<["community_member_id" := VNum 7]>
  {["created_at" := VDate 15]})))).

Definition challenges : store :=
  Store [challenge1; challenge2; challenge3] 4 30.

(** An error of the provider whose text happens to be one of the
    repository's own. *)
Definition database_error (text : string) : error :=
  mkError "SequelizeDatabaseError" text.

End Sample.

(** * Properties *)

(** ** Running [async] code *)

(** Closes an equation between closed terms by evaluating its two sides. *)
Ltac evaluate :=
  lazymatch goal with
  | |- _ = ?rhs => vm_cast_no_check (eq_refl rhs)
  end.

Ltac run_async :=
  unfold mbind, mret, async_bind, async_ret, bind, try_catch, ret, throw in *;
  simpl in *.

Section ErrorTexts.

(** A wrapped message starts with the wrapper's text, so it is never one of
    the not-found texts: the two begin with different letters. *)
Lemma get_failed_is_not_not_found (m : string) :
  GET_FAILED +:+ m ≠ GET_NOT_FOUND.
Proof. unfold GET_FAILED, GET_NOT_FOUND. simpl. discriminate. Qed.

Lemma update_failed_is_not_not_found (m : string) :
  UPDATE_FAILED +:+ m ≠ UPDATE_NOT_FOUND.
Proof. unfold UPDATE_FAILED, UPDATE_NOT_FOUND. simpl. discriminate. Qed.

Lemma delete_failed_is_not_not_found (m : string) :
  DELETE_FAILED +:+ m ≠ DELETE_NOT_FOUND.
Proof. unfold DELETE_FAILED, DELETE_NOT_FOUND. simpl. discriminate. Qed.

Lemma by_status_failed_is_not_status_empty (m : string) :
  BY_STATUS_FAILED +:+ m ≠ STATUS_EMPTY.
Proof. unfold BY_STATUS_FAILED, STATUS_EMPTY. simpl. discriminate. Qed.

Lemma Error_inj (m1 m2 : string) : Error m1 = Error m2 → m1 = m2.
Proof. by intros [= ->]. Qed.

End ErrorTexts.

(** ** Lookups that find nothing, lookups that fail *)

Section AnyProvider.

Context {S I : Type} {provider : Provider S I}.

Lemma getChallengeById_found id s s' (c : I) :
  findByPk id s = (Ok (Some c), s') →
  getChallengeById id s = (Ok (toJSON c), s').
Proof. intros H. unfold getChallengeById. run_async. by rewrite H. Qed.

Lemma getChallengeById_missing id s s' :
  findByPk id s = (Ok None, s') →
  getChallengeById id s = (Throw (Error GET_NOT_FOUND), s').
Proof. intros H. unfold getChallengeById. run_async. by rewrite H. Qed.

Lemma getChallengeById_failure id s s' e :
  findByPk id s = (Throw e, s') →
  getChallengeById id s =
    (Throw (if decide (message e = GET_NOT_FOUND) then e
            else Error (GET_FAILED +:+ message e)), s').
Proof.
  intros H. unfold getChallengeById. run_async. rewrite H.
  destruct (decide (message e = GET_NOT_FOUND)) as [Heq|Hne].
  - apply String.eqb_eq in Heq. by rewrite Heq.
  - apply String.eqb_neq in Hne. by rewrite Hne.
Qed.

Lemma updateChallenge_missing id data s s' :
  findByPk id s = (Ok None, s') →
  updateChallenge id data s = (Throw (Error UPDATE_NOT_FOUND), s').
Proof. intros H. unfold updateChallenge. run_async. by rewrite H. Qed.

Lemma deleteChallenge_missing id s s' :
  findByPk id s = (Ok None, s') →
  deleteChallenge id s = (Throw (Error DELETE_NOT_FOUND), s').
Proof. intros H. unfold deleteChallenge. run_async. by rewrite H. Qed.

(** [updateChallenge] hands [updateData] to the provider as it is. *)
Lemma updateChallenge_forwards id data s s1 (c : I) :
  findByPk id s = (Ok (Some c), s1) →
  updateChallenge id data s =
    match update c data s1 with
    | (Ok u, s2) => (Ok (toJSON u), s2)
    | (Throw e, s2) =>
        (Throw (if decide (message e = UPDATE_NOT_FOUND) then e
                else Error (UPDATE_FAILED +:+ message e)), s2)
    end.
Proof.
  intros H. unfold updateChallenge. run_async. rewrite H.
  destruct (update c data s1) as [[u|e] s2]; [done|].
  destruct (decide (message e = UPDATE_NOT_FOUND)) as [Heq|Hne].
  - apply String.eqb_eq in Heq. by rewrite Heq.
  - apply String.eqb_neq in Hne. by rewrite Hne.
Qed.

End AnyProvider.

(** ** Texts *)

Section Texts.

Lemma string_app_nil_l (s : string) : "" +:+ s = s.
Proof. reflexivity. Qed.
Lemma string_app_cons c (s1 s2 : string) : String c s1 +:+ s2 = String c (s1 +:+ s2).
Proof. reflexivity. Qed.
Lemma string_app_nil_r (s : string) : s +:+ "" = s.
Proof. induction s as [|c s IH]; [done|]. by rewrite string_app_cons, IH. Qed.
Lemma string_app_assoc (s1 s2 s3 : string) : (s1 +:+ s2) +:+ s3 = s1 +:+ s2 +:+ s3.
Proof. induction s1 as [|c s1 IH]; [done|]. by rewrite !string_app_cons, IH. Qed.

End Texts.

Ltac string_simpl := rewrite ?string_app_nil_l, ?string_app_cons in *.

(** ** LIKE *)

Section Like.

Lemma like_percent_iff p s :
  like_match (String "%" p) s = true ↔
  ∃ run rest, s = run +:+ rest ∧ like_match p rest = true.
Proof.
  simpl. induction s as [|c s IH].
  - rewrite orb_false_r. split.
    + intros H. by exists "", "".
    + intros (run & rest & Heq & H). destruct run; [|done].
      string_simpl. by subst rest.
  - rewrite orb_true_iff, IH. split.
    + intros [H|(run & rest & -> & H)].
      * by exists "", (String c s).
      * by exists (String c run), rest.
    + intros (run & rest & Heq & H). destruct run as [|d run]; string_simpl.
      * left. by subst rest.
      * right. injection Heq as -> ->. by exists run, rest.
Qed.

Lemma drop_bytes_app n s s' rest :
  drop_bytes n s = Some s' → drop_bytes n (s +:+ rest) = Some (s' +:+ rest).
Proof.
  revert s; induction n as [|n IH]; intros s; simpl.
  - by intros [= ->].
  - destruct s as [|c s]; [done|]. simpl. apply IH.
Qed.

Lemma drop_bytes_split n s s' :
  drop_bytes n s = Some s' → ∃ front, s = front +:+ s' ∧ drop_bytes n front = Some "".
Proof.
  revert s; induction n as [|n IH]; intros s; simpl.
  - intros [= ->]. by exists "".
  - destruct s as [|c s]; [done|]. intros H.
    destruct (IH _ H) as (front & -> & Hf). by exists (String c front).
Qed.

Lemma skip_char_iff s s' :
  skip_char s = Some s' ↔ ∃ ch, one_char ch ∧ s = ch +:+ s'.
Proof.
  unfold one_char. split.
  - destruct s as [|c s]; [done|]. simpl.
    destruct (char_width c) as [|n] eqn:Hw; [done|]. intros H.
    destruct (drop_bytes_split _ _ _ H) as (front & -> & Hf).
    exists (String c front). simpl. by rewrite Hw.
  - intros (ch & Hch & ->). destruct ch as [|c ch]; [done|].
    string_simpl. simpl in *.
    destruct (char_width c) as [|n]; [done|].
    by apply (drop_bytes_app _ _ _ s') in Hch.
Qed.

Lemma like_app p1 p2 s :
  like_match (p1 +:+ p2) s = true ↔
  ∃ s1 s2, s = s1 +:+ s2 ∧ like_match p1 s1 = true ∧ like_match p2 s2 = true.
Proof.
  revert s. induction p1 as [|c p1 IH]; intros s.
  - simpl. split.
    + intros H. by exists "", s.
    + intros (s1 & s2 & -> & H1 & H2). by destruct s1.
  - change (String c p1 +:+ p2) with (String c (p1 +:+ p2)).
    destruct (Ascii.eqb c "%") eqn:Hpc; [|destruct (Ascii.eqb c "_") eqn:Hus].
    + apply Ascii.eqb_eq in Hpc as ->. rewrite like_percent_iff. split.
      * intros (run & rest & -> & H). apply IH in H as (s1 & s2 & -> & H1 & H2).
        exists (run +:+ s1), s2. split; [by rewrite string_app_assoc|].
        split; [|done]. apply like_percent_iff. by exists run, s1.
      * intros (s1 & s2 & -> & H1 & H2).
        apply like_percent_iff in H1 as (run & rest & -> & H1).
        exists run, (rest +:+ s2). split; [by rewrite string_app_assoc|].
        apply IH. by exists rest, s2.
    + apply Ascii.eqb_eq in Hus as ->. simpl. split.
      * destruct (skip_char s) as [s'|] eqn:Hs; [|done]. intros H.
        apply IH in H as (s1 & s2 & -> & H1 & H2).
        apply skip_char_iff in Hs as (ch & Hch & ->).
        exists (ch +:+ s1), s2. split; [by rewrite string_app_assoc|].
        split; [|done].
        assert (skip_char (ch +:+ s1) = Some s1) as ->; [|done].
        apply skip_char_iff. by exists ch.
      * intros (s1 & s2 & -> & H1 & H2).
        destruct (skip_char s1) as [s1'|] eqn:Hs; [|done].
        apply skip_char_iff in Hs as (ch & Hch & ->).
        assert (skip_char ((ch +:+ s1') +:+ s2) = Some (s1' +:+ s2)) as ->.
        { apply skip_char_iff. exists ch. by rewrite string_app_assoc. }
        apply IH. by exists s1', s2.
    + simpl. rewrite Hpc, Hus. split.
      * destruct s as [|d s]; [done|]. intros [Hcd H]%andb_true_iff.
        apply IH in H as (s1 & s2 & -> & H1 & H2).
        exists (String d s1), s2. split; [done|]. by rewrite Hcd.
      * intros (s1 & s2 & -> & H1 & H2).
        destruct s1 as [|d s1]; [done|]. simpl.
        apply andb_true_iff in H1 as [Hcd H1]. rewrite Hcd. simpl.
        apply IH. by exists s1, s2.
Qed.

Lemma like_literal t s :
  literal t = true → like_match t s = true ↔ s = t.
Proof.
  revert s. induction t as [|c t IH]; intros s; simpl.
  - intros _. by destruct s.
  - unfold wildcard. intros [Hc Ht]%andb_true_iff.
    apply negb_true_iff, orb_false_iff in Hc as [Hp Hu]. rewrite Hp, Hu.
    destruct s as [|d s]; [done|].
    rewrite andb_true_iff, (IH _ Ht), Ascii.eqb_eq.
    split; [by intros [-> ->] | by intros [= -> ->]].
Qed.

Lemma like_any s : like_match "%" s = true.
Proof. apply (like_percent_iff "" s). exists s, "". by rewrite string_app_nil_r. Qed.

Lemma like_one s : like_match "_" s = true ↔ one_char s.
Proof.
  unfold one_char. simpl. destruct (skip_char s) as [[|c s']|]; naive_solver.
Qed.

(** [`%${term}%`] against a text: some part of the text matches [term]. *)
Lemma like_search_pattern term s :
  like_match (search_pattern term) s = true ↔
  ∃ front part back,
    s = front +:+ part +:+ back ∧ like_match term part = true.
Proof.
  unfold search_pattern.
  change ("%" +:+ term +:+ "%") with (String "%" (term +:+ "%")).
  rewrite like_percent_iff. split.
  - intros (front & rest & -> & (part & back & -> & H & _)%like_app). eauto.
  - intros (front & part & back & -> & H). exists front, (part +:+ back).
    split; [done|]. apply like_app. eauto using like_any.
Qed.

Lemma like_contains term s :
  literal term = true →
  like_match (search_pattern term) s = true ↔ contains s term.
Proof.
  intros Ht. rewrite like_search_pattern. unfold contains. split.
  - intros (front & part & back & -> & ->%like_literal); eauto.
  - intros (front & back & ->). exists front, term, back.
    split; [done|]. by apply like_literal.
Qed.

Lemma like_search_percent a b s :
  like_match (search_pattern (a +:+ "%" +:+ b)) s = true ↔
  ∃ front x run y back,
    s = front +:+ x +:+ run +:+ y +:+ back
    ∧ like_match a x = true ∧ like_match b y = true.
Proof.
  rewrite like_search_pattern. split.
  - intros (front & part & back & -> & (x & rest & -> & Ha & H)%like_app).
    apply like_percent_iff in H as (run & y & -> & Hb).
    exists front, x, run, y, back. by rewrite !string_app_assoc.
  - intros (front & x & run & y & back & -> & Ha & Hb).
    exists front, (x +:+ run +:+ y), back. rewrite !string_app_assoc.
    split; [done|]. apply like_app. exists x, (run +:+ y).
    split_and!; [done..|]. apply like_percent_iff. eauto.
Qed.

Lemma like_search_underscore a b s :
  like_match (search_pattern (a +:+ "_" +:+ b)) s = true ↔
  ∃ front x ch y back,
    s = front +:+ x +:+ ch +:+ y +:+ back
    ∧ one_char ch ∧ like_match a x = true ∧ like_match b y = true.
Proof.
  rewrite like_search_pattern. split.
  - intros (front & part & back & -> & (x & rest & -> & Ha & H)%like_app).
    apply (like_app "_" b) in H as (ch & y & -> & Hch%like_one & Hb).
    exists front, x, ch, y, back. by rewrite !string_app_assoc.
  - intros (front & x & ch & y & back & -> & Hch & Ha & Hb).
    exists front, (x +:+ ch +:+ y), back. rewrite !string_app_assoc.
    split; [done|]. apply like_app. exists x, (ch +:+ y).
    split_and!; [done..|]. apply (like_app "_" b). exists ch, y.
    split_and!; [done| |done]. by apply like_one.
Qed.

End Like.

(** ** [trim] *)

Section Trim.

Lemma strip_prefix_Some p s s' : strip_prefix p s = Some s' ↔ s = p +:+ s'.
Proof.
  revert s. induction p as [|a p IH]; intros s; simpl.
  - string_simpl. naive_solver.
  - destruct s as [|b s]; [done|]. string_simpl.
    destruct (Ascii.eqb a b) eqn:Hab.
    + apply Ascii.eqb_eq in Hab as ->. rewrite IH.
      split; [by intros -> | by intros [= ->]].
    + apply Ascii.eqb_neq in Hab. split; [done|]. by intros [= ? _].
Qed.

Lemma strip_one_Some chars s s' :
  strip_one chars s = Some s' → ∃ c, c ∈ chars ∧ s = c +:+ s'.
Proof.
  induction chars as [|c chars IH]; simpl; [done|].
  destruct (strip_prefix c s) as [r|] eqn:Hc.
  - intros [= ->]. apply strip_prefix_Some in Hc. exists c. split; [left|done].
  - intros (c' & ? & ?)%IH. exists c'. split; [by right|done].
Qed.

Lemma strip_all_split chars n s :
  ∃ cs, Forall (λ c, c ∈ chars) cs ∧ s = join cs +:+ strip_all chars n s.
Proof.
  revert s. induction n as [|n IH]; intros s; simpl.
  - by exists [].
  - destruct (strip_one chars s) as [s'|] eqn:Hs; [|by exists []].
    apply strip_one_Some in Hs as (c & Hc & ->).
    destruct (IH s') as (cs & Hcs & Heq). exists (c :: cs).
    split; [by constructor|]. simpl.
    by rewrite string_app_assoc, <-Heq.
Qed.

Lemma rev_app_append (s1 s2 : string) :
  String.rev_app s1 s2 = String.rev s1 +:+ s2.
Proof.
  unfold String.rev. revert s2. induction s1 as [|a s1 IH]; intros s2; simpl.
  - done.
  - rewrite (IH (String a s2)), (IH (String a "")).
    by rewrite string_app_assoc.
Qed.

Lemma rev_cons a (s : string) : String.rev (String a s) = String.rev s +:+ String a "".
Proof. unfold String.rev at 1. simpl. apply rev_app_append. Qed.

Lemma rev_append (s1 s2 : string) :
  String.rev (s1 +:+ s2) = String.rev s2 +:+ String.rev s1.
Proof.
  induction s1 as [|a s1 IH]; string_simpl.
  - by rewrite string_app_nil_r.
  - by rewrite !rev_cons, IH, string_app_assoc.
Qed.

Lemma rev_involutive (s : string) : String.rev (String.rev s) = s.
Proof.
  induction s as [|a s IH]; [done|].
  by rewrite rev_cons, rev_append, IH.
Qed.

Lemma join_app (cs1 cs2 : list string) : join (cs1 ++ cs2) = join cs1 +:+ join cs2.
Proof.
  induction cs1 as [|c cs1 IH]; simpl; [done|].
  by rewrite IH, string_app_assoc.
Qed.

Lemma rev_join (cs : list string) :
  String.rev (join cs) = join (String.rev <$> reverse cs).
Proof.
  induction cs as [|c cs IH]; [done|]. simpl.
  rewrite rev_append, IH, reverse_cons, fmap_app, join_app. simpl.
  by rewrite string_app_nil_r.
Qed.

Lemma strip_one_whitespace c rest :
  c ∈ whitespace → strip_one whitespace (c +:+ rest) = Some rest.
Proof.
  unfold whitespace. rewrite !fmap_cons, fmap_nil.
  intros H. repeat (apply elem_of_cons in H as [->|H]; [reflexivity|]).
  by apply elem_of_nil in H.
Qed.

Lemma whitespace_nonempty c : c ∈ whitespace → c ≠ "".
Proof.
  unfold whitespace. rewrite !fmap_cons, fmap_nil.
  intros H. repeat (apply elem_of_cons in H as [->|H]; [done|]).
  by apply elem_of_nil in H.
Qed.

Lemma length_append (s1 s2 : string) :
  String.length (s1 +:+ s2) = (String.length s1 + String.length s2)%nat.
Proof. induction s1 as [|a s1 IH]; string_simpl; simpl; [done|]. by rewrite IH. Qed.

Lemma length_join cs :
  Forall (λ c, c ∈ whitespace) cs → (length cs ≤ String.length (join cs))%nat.
Proof.
  induction 1 as [|c cs Hc _ IH]; simpl; [done|].
  rewrite length_append. apply whitespace_nonempty in Hc.
  destruct c; [done|]. simpl. lia.
Qed.

Lemma strip_all_join cs n :
  Forall (λ c, c ∈ whitespace) cs → (length cs ≤ n)%nat →
  strip_all whitespace n (join cs) = "".
Proof.
  intros Hcs. revert n. induction Hcs as [|c cs Hc _ IH]; intros n Hn.
  - by destruct n.
  - destruct n as [|n]; [simpl in Hn; lia|].
    change (join (c :: cs)) with (c +:+ join cs).
    change (strip_all whitespace (S n) (c +:+ join cs))
      with (match strip_one whitespace (c +:+ join cs) with
            | Some s' => strip_all whitespace n s'
            | None => c +:+ join cs
            end).
    rewrite strip_one_whitespace by done. apply IH. simpl in Hn. lia.
Qed.

Lemma trim_blank s : trim s = "" ↔ whitespace_only s.
Proof.
  split.
  - unfold trim, trim_end. set (t := trim_start s). intros H.
    apply (f_equal String.rev) in H. rewrite rev_involutive in H.
    destruct (strip_all_split (String.rev <$> whitespace)
                (String.length t) (String.rev t)) as (cs & Hcs & Heq).
    rewrite H in Heq. change (String.rev "") with "" in Heq.
    rewrite string_app_nil_r in Heq.
    apply (f_equal String.rev) in Heq. rewrite rev_involutive, rev_join in Heq.
    destruct (strip_all_split whitespace (String.length s) s)
      as (cs0 & Hcs0 & Heq0).
    fold (trim_start s) in Heq0. fold t in Heq0.
    exists (cs0 ++ (String.rev <$> reverse cs)). split.
    + apply Forall_app. split; [done|]. apply Forall_fmap, Forall_reverse.
      eapply Forall_impl; [exact Hcs|]. cbv beta.
      intros c (w & -> & Hw)%list_elem_of_fmap.
      unfold compose. by rewrite rev_involutive.
    + by rewrite join_app, <-Heq.
  - intros (cs & Hcs & ->). unfold trim, trim_start.
    rewrite strip_all_join; [done|done|by apply length_join].
Qed.

End Trim.

(** ** The in-memory store *)

Section Memory.

#[global] Instance rank_le_transitive : Transitive rank_le.
Proof. intros [x|] [y|] [z|]; simpl; try done. lia. Qed.

#[global] Instance rank_le_total : Total rank_le.
Proof. intros [x|] [y|]; simpl; auto. lia. Qed.

#[global] Instance before_transitive k d : Transitive (before k d).
Proof.
  intros r1 r2 r3; destruct d; unfold before; intros H12 H23.
  - by etrans.
  - by etrans.
Qed.

#[global] Instance before_total k d : Total (before k d).
Proof. intros r1 r2; destruct d; unfold before; apply total, _. Qed.

Lemma strict_eq_undefined v : strict_eq v VUndefined = true ↔ v = VUndefined.
Proof. destruct v; simpl; try done; by rewrite bool_decide_eq_true. Qed.

Lemma whereClause_lookup (filters : obj) (k : string) :
  whereClause filters !! k =
    if decide (k = "is_weekly") then
      if decide (get filters "is_weekly" = VUndefined) then None
      else Some (get filters "is_weekly")
    else if decide (k = "community_member_id") then
      if truthy (get filters "community_member_id")
      then Some (get filters "community_member_id") else None
    else if decide (k = "status") then
      if truthy (get filters "status")
      then Some (get filters "status") else None
    else None.
Proof.
  unfold whereClause.
  destruct (decide (get filters "is_weekly" = VUndefined)) as [Hw|Hw].
  - apply strict_eq_undefined in Hw as ->. simpl.
    repeat case_decide; subst;
      destruct (truthy (get filters "community_member_id"));
      destruct (truthy (get filters "status"));
      by simplify_map_eq.
  - rewrite <-strict_eq_undefined in Hw. apply not_true_is_false in Hw as ->.
    simpl.
    repeat case_decide; subst;
      destruct (truthy (get filters "community_member_id"));
      destruct (truthy (get filters "status"));
      by simplify_map_eq.
Qed.

Lemma satisfies_whereClause filters row :
  satisfies (Where (whereClause filters)) row = true ↔ selected filters row.
Proof.
  unfold satisfies, selected. rewrite bool_decide_eq_true, map_Forall_lookup.
  split.
  - intros H. split_and!; intros Hk.
    + apply H. rewrite whereClause_lookup. simpl. by rewrite Hk.
    + apply H. rewrite whereClause_lookup. simpl. by rewrite Hk.
    + apply H. rewrite whereClause_lookup. simpl. by case_decide.
  - intros (Hs & Hm & Hw) k v. rewrite whereClause_lookup.
    repeat case_decide; subst; try done.
    + intros [= Hv]. rewrite <-Hv. by apply Hw.
    + destruct (truthy (get filters "community_member_id")) eqn:Ht;
        intros [= Hv]. rewrite <-Hv. by apply Hm.
    + destruct (truthy (get filters "status")) eqn:Ht;
        intros [= Hv]. rewrite <-Hv. by apply Hs.
Qed.

Lemma mem_findAll_newest_first (w : where_clause) (st : store) :
  ∃ rows,
    findAll (FindOptions w [("created_at", DESC)]) st = (Ok rows, st)
    ∧ rows ≡ₚ filter (λ row, satisfies w row = true) (table st)
    ∧ newest_first rows.
Proof.
  eexists. split; [reflexivity|]. simpl. split.
  - apply merge_sort_Permutation.
  - apply StronglySorted_merge_sort; apply _.
Qed.

Lemma mem_getAllChallenges (filters : obj) (st : store) :
  ∃ l, getAllChallenges (Some filters) st = (Ok l, st)
     ∧ l ≡ₚ filter (selected filters) (table st)
     ∧ newest_first l.
Proof.
  destruct (mem_findAll_newest_first (Where (whereClause filters)) st)
    as (rows & Hrun & Hperm & Hsorted).
  exists rows. split_and!; [|by rewrite Hperm;
    erewrite list_filter_iff; [done|]; intros row; apply satisfies_whereClause
                            |done].
  unfold getAllChallenges, try_catch, mbind, async_bind, bind.
  change (default ∅ (Some filters)) with filters.
  rewrite Hrun. unfold mret, async_ret, ret. by rewrite list_fmap_id.
Qed.

End Memory.

(** * The claims *)

(** ** Error handling *)

(** C1. [getChallengesByStatus] on the empty status.  The error the method
    raises for the empty status is thrown inside the [try] block, and the
    [catch] block has no test that lets it through: whatever the provider,
    and without the provider being asked, the caller receives
    [Error (BY_STATUS_FAILED +:+ STATUS_EMPTY)], the wrapper of a provider
    failure, and not [Error STATUS_EMPTY].  A provider that fails with the
    text [STATUS_EMPTY] on a status that is not empty gives the caller the
    very same error. *)
Theorem getChallengesByStatus_empty_is_wrapped :
  (∀ (S I : Type) (provider : Provider S I) (s : S),
     getChallengesByStatus (VStr "") s
     = (Throw (Error (BY_STATUS_FAILED +:+ STATUS_EMPTY)), s))
  ∧ Error (BY_STATUS_FAILED +:+ STATUS_EMPTY) ≠ Error STATUS_EMPTY
  ∧ getChallengesByStatus
      (provider := down_provider (Sample.database_error STATUS_EMPTY))
      (VStr "done") ()
    = (Throw (Error (BY_STATUS_FAILED +:+ STATUS_EMPTY)), ()).
Proof.
  split_and!.
  - intros S I provider s. reflexivity.
  - intros H%Error_inj. by apply by_status_failed_is_not_status_empty in H.
  - reflexivity.
Qed.

(** C2. [updateChallenge] with an update object that names [id] and
    [created_at].  For any provider, once the lookup has found the record
    the method hands the update object to the provider's instance [update]
    as it is: no key is taken out.  On the in-memory store, whose [update]
    keeps the identifier and applies every other field it is given, record
    1 updated with [{ id: 99, created_at: 0 }] keeps the identifier 1 and
    its title, and has its creation time replaced by 0, in what is returned
    and in what is stored. *)
Theorem updateChallenge_overwrites_created_at :
  (∀ (S I : Type) (provider : Provider S I)
     (id : value) (updateData : obj) (s s1 : S) (challenge : I),
     findByPk id s = (Ok (Some challenge), s1) →
     updateChallenge id updateData s =
       match update challenge updateData s1 with
       | (Ok updatedChallenge, s2) => (Ok (toJSON updatedChallenge), s2)
       | (Throw e, s2) =>
           (Throw (if decide (message e = UPDATE_NOT_FOUND) then e
                   else Error (UPDATE_FAILED +:+ message e)), s2)
       end)
  ∧ ∃ updated st',
      updateChallenge (VNum 1)
        (<["id" := VNum 99]> {["created_at" := VDate 0]}) Sample.challenges
      = (Ok updated, st')
      ∧ get Sample.challenge1 "id" = VNum 1
      ∧ get Sample.challenge1 "created_at" = VDate 10
      ∧ get updated "id" = VNum 1
      ∧ get updated "created_at" = VDate 0
      ∧ get updated "title" = get Sample.challenge1 "title"
      ∧ getChallengeById (VNum 1) st' = (Ok updated, st')
      ∧ getChallengeById (VNum 99) st' = (Throw (Error GET_NOT_FOUND), st').
Proof.
  split.
  - intros S I provider id updateData s s1 challenge Hfound.
    by apply updateChallenge_forwards.
  - eexists _, _. split; [reflexivity|].
    split_and!; evaluate.
Qed.

(** C3. An identifier without a record: when the existence check of
    [updateChallenge] and [deleteChallenge] finds nothing ([findByPk]
    answers [null]), the method fails with the not-found error the check
    raised.  The error reaches the caller as it was raised, the provider is
    not called again (the store is as [findByPk] left it), and it is not
    the wrapper of a provider failure, whatever the message wrapped. *)
Theorem update_delete_not_found_propagates
    {S I : Type} {provider : Provider S I}
    (id : value) (updateData : obj) (s s' : S) :
  findByPk id s = (Ok None, s') →
  updateChallenge id updateData s = (Throw (Error UPDATE_NOT_FOUND), s')
  ∧ deleteChallenge id s = (Throw (Error DELETE_NOT_FOUND), s')
  ∧ (∀ m, Error UPDATE_NOT_FOUND ≠ Error (UPDATE_FAILED +:+ m))
  ∧ (∀ m, Error DELETE_NOT_FOUND ≠ Error (DELETE_FAILED +:+ m)).
Proof.
  intros Hnull. split_and!.
  - by apply updateChallenge_missing.
  - by apply deleteChallenge_missing.
  - intros m H%Error_inj. by eapply update_failed_is_not_not_found.
  - intros m H%Error_inj. by eapply delete_failed_is_not_not_found.
Qed.

Lemma update_delete_not_found_propagates_witness :
  findByPk (VNum 5) Sample.challenges = (Ok None, Sample.challenges)
  ∧ updateChallenge (VNum 5) {["status" := VStr "done"]} Sample.challenges
    = (Throw (Error UPDATE_NOT_FOUND), Sample.challenges)
  ∧ deleteChallenge (VNum 5) Sample.challenges
    = (Throw (Error DELETE_NOT_FOUND), Sample.challenges).
Proof.
  assert (findByPk (VNum 5) Sample.challenges = (Ok None, Sample.challenges))
    as Hnull by reflexivity.
  split; [exact Hnull|].
  destruct (update_delete_not_found_propagates
              (VNum 5) {["status" := VStr "done"]}
              Sample.challenges Sample.challenges Hnull) as (Hu & Hd & _).
  split; [exact Hu | exact Hd].
Defined.

(** C5, as the claim has it, fails: a provider error whose message is the
    not-found text is not wrapped.  With the provider down with such an
    error, [getChallengeById] rethrows the provider's own error, which is
    not the [GET_FAILED] wrapper and which a caller that looks at the
    message takes for the not-found error. *)
Lemma getChallengeById_provider_error_not_wrapped :
  let failure := Sample.database_error GET_NOT_FOUND in
  getChallengeById (provider := down_provider failure) (VNum 1) ()
  = (Throw failure, ())
  ∧ failure ≠ Error (GET_FAILED +:+ message failure)
  ∧ failure ≠ Error GET_NOT_FOUND
  ∧ message failure = message (Error GET_NOT_FOUND).
Proof. intros failure. split_and!; done. Qed.

(** C5, amended.  [getChallengeById] returns the record [findByPk] finds;
    when [findByPk] finds none it fails with the not-found error; a
    provider error whose message is not the not-found text is wrapped as
    [GET_FAILED] (one whose message is that text is rethrown as it is); and
    no wrapped error carries the not-found text, so a caller that compares
    the message tells the two apart. *)
Theorem getChallengeById_outcomes
    {S I : Type} {provider : Provider S I} (id : value) (s : S) :
  getChallengeById id s =
    match findByPk id s with
    | (Ok (Some challenge), s') => (Ok (toJSON challenge), s')
    | (Ok None, s') => (Throw (Error GET_NOT_FOUND), s')
    | (Throw e, s') =>
        (Throw (if decide (message e = GET_NOT_FOUND) then e
                else Error (GET_FAILED +:+ message e)), s')
    end
  ∧ (∀ m, message (Error (GET_FAILED +:+ m)) ≠ GET_NOT_FOUND).
Proof.
  split.
  - destruct (findByPk id s) as [[[c|]|e] s'] eqn:H.
    + by apply getChallengeById_found.
    + by apply getChallengeById_missing.
    + by apply getChallengeById_failure.
  - intros m. apply get_failed_is_not_not_found.
Qed.

(** ** Searching *)

Section Searching.

Lemma literal_app (s1 s2 : string) :
  literal (s1 +:+ s2) = literal s1 && literal s2.
Proof.
  induction s1 as [|c s1 IH]; string_simpl; simpl; [done|].
  by rewrite IH, andb_assoc.
Qed.

Lemma whitespace_literal c : c ∈ whitespace → literal c = true.
Proof.
  unfold whitespace. rewrite !fmap_cons, fmap_nil.
  intros H. repeat (apply elem_of_cons in H as [->|H]; [reflexivity|]).
  by apply elem_of_nil in H.
Qed.

(** A text with a wildcard in it is not blank. *)
Lemma whitespace_only_literal s : whitespace_only s → literal s = true.
Proof.
  intros (cs & Hcs & ->). induction Hcs as [|c cs Hc _ IH]; [done|].
  change (join (c :: cs)) with (c +:+ join cs).
  by rewrite literal_app, IH, whitespace_literal.
Qed.

Lemma whitespace_only_empty : whitespace_only "".
Proof. by exists []. Qed.

(** The test at the head of [searchChallenges]. *)
Lemma search_guard_blank (term : value) :
  blank term →
  negb (truthy term) || negb (String.eqb (typeof term) "string")
  || match term with VStr s => String.eqb (trim s) "" | _ => false end = true.
Proof.
  destruct term as [| |b|n| |s|t|r]; simpl; intros H;
    rewrite ?orb_true_r; try done.
  apply orb_true_iff. right. apply String.eqb_eq, trim_blank.
  destruct H as [->|H]; [apply whitespace_only_empty | done].
Qed.

Lemma search_guard_term (term : string) :
  ¬ whitespace_only term →
  negb (truthy (VStr term)) || negb (String.eqb (typeof (VStr term)) "string")
  || String.eqb (trim term) "" = false.
Proof.
  intros H. simpl. rewrite orb_false_r.
  assert (String.eqb term "" = false) as ->.
  { apply String.eqb_neq. intros ->. apply H, whitespace_only_empty. }
  simpl. apply String.eqb_neq. by rewrite trim_blank.
Qed.

Lemma searchChallenges_query
    {S I : Type} {provider : Provider S I} (term : string) (s : S) :
  ¬ whitespace_only term →
  searchChallenges (VStr term) s =
    match findAll (FindOptions
                     (WhereOr [ ("title", Like (search_pattern term))
                              ; ("description", Like (search_pattern term)) ])
                     [("created_at", DESC)]) s with
    | (Ok challenges, s') => (Ok (toJSON <$> challenges), s')
    | (Throw e, s') => (Throw (Error (SEARCH_FAILED +:+ message e)), s')
    end.
Proof.
  intros H. unfold searchChallenges. rewrite (search_guard_term _ H).
  unfold try_catch, mbind, async_bind, bind.
  by destruct (findAll _ s) as [[l|e] s'].
Qed.

Lemma satisfies_search (pattern : string) (row : obj) :
  satisfies (WhereOr [ ("title", Like pattern); ("description", Like pattern) ])
    row = true
  ↔ title_or_description (λ text, like_match pattern text = true) row.
Proof.
  unfold title_or_description. cbn [satisfies existsb].
  rewrite orb_false_r, orb_true_iff.
  assert (∀ v, holds (Like pattern) v = true
               ↔ ∃ text, v = VStr text ∧ like_match pattern text = true) as Hv.
  { intros v. destruct v; simpl; split; try done;
      try (by intros (text & [=] & _)).
    - eauto.
    - by intros (text & [= <-] & ?). }
  by rewrite !Hv.
Qed.

Lemma title_or_description_iff (P Q : string → Prop) (row : obj) :
  (∀ text, P text ↔ Q text) →
  title_or_description P row ↔ title_or_description Q row.
Proof.
  intros HPQ. unfold title_or_description.
  by setoid_rewrite HPQ.
Qed.

(** On the in-memory store a search for a term that is not blank returns
    the rows whose title or description matches [`%${term}%`], newest
    first. *)
Lemma mem_searchChallenges (term : string) (st : store) :
  ¬ whitespace_only term →
  ∃ l, searchChallenges (VStr term) st = (Ok l, st)
     ∧ l ≡ₚ filter (λ row,
              satisfies (WhereOr [ ("title", Like (search_pattern term))
                                 ; ("description", Like (search_pattern term)) ])
                row = true) (table st)
     ∧ newest_first l.
Proof.
  intros H. rewrite (searchChallenges_query _ _ H).
  destruct (mem_findAll_newest_first
              (WhereOr [ ("title", Like (search_pattern term))
                       ; ("description", Like (search_pattern term)) ]) st)
    as (rows & -> & Hperm & Hsorted).
  exists rows. change (toJSON <$> rows) with (id <$> rows).
  by rewrite list_fmap_id.
Qed.

End Searching.

Section Contains.

Lemma containsb_contains (text term : string) :
  containsb text term = true ↔ contains text term.
Proof.
  unfold contains. induction text as [|c text IH].
  - simpl. destruct (strip_prefix term "") as [back|] eqn:Hp.
    + apply strip_prefix_Some in Hp. split; [|done]. intros _.
      exists "", back. by string_simpl.
    + split; [done|]. intros (front & back & H).
      destruct front; [|done]. string_simpl.
      apply strip_prefix_Some in H. congruence.
  - change (containsb (String c text) term)
      with (match strip_prefix term (String c text) with
            | Some _ => true
            | None => containsb text term
            end).
    destruct (strip_prefix term (String c text)) as [back|] eqn:Hp.
    + apply strip_prefix_Some in Hp. split; [|done]. intros _.
      exists "", back. by string_simpl.
    + rewrite IH. split.
      * intros (front & back & ->). by exists (String c front), back.
      * intros (front & back & H). destruct front as [|d front]; string_simpl.
        -- apply strip_prefix_Some in H. congruence.
        -- injection H as -> ->. by exists front, back.
Qed.

#[global] Instance contains_dec text term : Decision (contains text term).
Proof.
  refine (cast_if (decide (containsb text term = true)));
    by rewrite <-containsb_contains.
Defined.

#[global] Instance title_or_description_dec
    (P : string → Prop) `{∀ text, Decision (P text)} (row : obj) :
  Decision (title_or_description P row).
Proof.
  assert (∀ v, Decision (∃ text, v = VStr text ∧ P text)) as Hv.
  { intros v. destruct v as [| | | | |s| |];
      try (right; by intros (text & [=] & _)).
    destruct (decide (P s)) as [Hs|Hs]; [left; eauto|].
    right. by intros (text & [= <-] & ?). }
  unfold title_or_description. apply or_dec; apply Hv.
Defined.

End Contains.

(** C6. A search term that is empty, made of whitespace only, or not a
    string (null among them): [searchChallenges] returns the empty sequence,
    raises nothing and calls no provider method.  The store is left as it
    was whatever the provider; on a provider that counts its queries the
    count stays where it was. *)
Theorem searchChallenges_blank
    {S I : Type} {provider : Provider S I} (term : value) (s : S) :
  blank term →
  searchChallenges term s = (Ok [], s)
  ∧ ∀ n : nat,
      searchChallenges (provider := counting_provider provider) term (s, n)
      = (Ok [], (s, n)).
Proof.
  intros H. unfold searchChallenges.
  rewrite (search_guard_blank _ H). by split.
Qed.

Lemma searchChallenges_blank_witness :
  blank (VStr "  ")
  ∧ searchChallenges (VStr "  ") Sample.challenges = (Ok [], Sample.challenges)
  ∧ blank VNull
  ∧ searchChallenges VNull Sample.challenges = (Ok [], Sample.challenges).
Proof.
  assert (blank (VStr "  ")) as Hblank.
  { right. exists [" "; " "]. split; [|done].
    repeat constructor; by vm_compute. }
  split; [exact Hblank|].
  split; [exact (proj1 (searchChallenges_blank
                          (VStr "  ") Sample.challenges Hblank))|].
  split; [exact I|].
  exact (proj1 (searchChallenges_blank VNull Sample.challenges I)).
Defined.

(** C7, as the claim has it, fails on a term with a wildcard.  The search
    for "a_c" returns record 1, whose title is "abc" and whose description
    is "first": neither contains "a_c". *)
Lemma searchChallenges_wildcard_not_substring :
  searchChallenges (VStr "a_c") Sample.challenges
  = (Ok [Sample.challenge2; Sample.challenge1], Sample.challenges)
  ∧ column Sample.challenge1 "title" = VStr "abc"
  ∧ column Sample.challenge1 "description" = VStr "first"
  ∧ ¬ contains "abc" "a_c"
  ∧ ¬ contains "first" "a_c".
Proof.
  split_and!; [evaluate..| |];
    rewrite <-containsb_contains; by intros [=].
Qed.

(** C7, amended.  For a term that is not blank and has no [%] and no [_] in
    it, [searchChallenges] returns exactly the records whose title or
    description contains the term, newest first. *)
Theorem searchChallenges_literal (term : string) (st : store) :
  ¬ whitespace_only term →
  literal term = true →
  ∃ l, searchChallenges (VStr term) st = (Ok l, st)
     ∧ l ≡ₚ filter (title_or_description (λ text, contains text term))
              (table st)
     ∧ newest_first l.
Proof.
  intros Hterm Hliteral.
  destruct (mem_searchChallenges term st Hterm) as (l & Hrun & Hperm & Hsorted).
  exists l. split_and!; [done| |done].
  rewrite Hperm. erewrite list_filter_iff; [done|]. intros row.
  rewrite satisfies_search. apply title_or_description_iff.
  intros text. by apply like_contains.
Qed.

Lemma searchChallenges_literal_witness :
  ¬ whitespace_only "abc"
  ∧ literal "abc" = true
  ∧ ∃ l, searchChallenges (VStr "abc") Sample.challenges
         = (Ok l, Sample.challenges)
       ∧ l ≡ₚ filter (title_or_description (λ text, contains text "abc"))
                (table Sample.challenges)
       ∧ newest_first l.
Proof.
  assert (¬ whitespace_only "abc") as Hterm.
  { intros H%trim_blank. by vm_compute in H. }
  split; [exact Hterm|]. split; [reflexivity|].
  exact (searchChallenges_literal "abc" Sample.challenges Hterm eq_refl).
Defined.

(** C10. The search term goes into the LIKE pattern as it is, so a [%] in
    the term stands for any run of characters and a [_] for any one
    character.  For a term [a%b] the records returned are those with a
    title or description in which a match of [a] is followed, after any run
    of characters, by a match of [b]; for a term [a_b], after exactly one
    character.  Record 1 of the sample, titled "abc", is found by "a_c" and
    by "a%c". *)
Theorem searchChallenges_wildcards (a b : string) (st : store) :
  (∃ l, searchChallenges (VStr (a +:+ "%" +:+ b)) st = (Ok l, st)
      ∧ ∀ row, row ∈ l ↔
          row ∈ table st
          ∧ title_or_description (λ text,
              ∃ front x run y back,
                text = front +:+ x +:+ run +:+ y +:+ back
                ∧ like_match a x = true ∧ like_match b y = true) row)
  ∧ (∃ l, searchChallenges (VStr (a +:+ "_" +:+ b)) st = (Ok l, st)
      ∧ ∀ row, row ∈ l ↔
          row ∈ table st
          ∧ title_or_description (λ text,
              ∃ front x ch y back,
                text = front +:+ x +:+ ch +:+ y +:+ back
                ∧ one_char ch
                ∧ like_match a x = true ∧ like_match b y = true) row)
  ∧ Sample.challenge1 ∈
      match fst (searchChallenges (VStr "a_c") Sample.challenges) with
      | Ok l => l | Throw _ => [] end
  ∧ Sample.challenge1 ∈
      match fst (searchChallenges (VStr "a%c") Sample.challenges) with
      | Ok l => l | Throw _ => [] end.
Proof.
  assert (∀ c, wildcard c = true → ¬ whitespace_only (a +:+ String c b))
    as Hterm.
  { intros c Hc H%whitespace_only_literal.
    rewrite literal_app in H. simpl in H. rewrite Hc in H.
    by rewrite andb_false_r in H. }
  split_and!.
  - destruct (mem_searchChallenges (a +:+ "%" +:+ b) st (Hterm "%"%char eq_refl))
      as (l & Hrun & Hperm & _).
    exists l. split; [done|]. intros row.
    rewrite Hperm, list_elem_of_filter, satisfies_search.
    rewrite (title_or_description_iff _ _ row (like_search_percent a b)).
    tauto.
  - destruct (mem_searchChallenges (a +:+ "_" +:+ b) st (Hterm "_"%char eq_refl))
      as (l & Hrun & Hperm & _).
    exists l. split; [done|]. intros row.
    rewrite Hperm, list_elem_of_filter, satisfies_search.
    rewrite (title_or_description_iff _ _ row (like_search_underscore a b)).
    tauto.
  - assert (searchChallenges (VStr "a_c") Sample.challenges
            = (Ok [Sample.challenge2; Sample.challenge1], Sample.challenges))
      as -> by evaluate.
    simpl. set_solver.
  - assert (searchChallenges (VStr "a%c") Sample.challenges
            = (Ok [Sample.challenge2; Sample.challenge1], Sample.challenges))
      as -> by evaluate.
    simpl. set_solver.
Qed.

(** ** Listing *)

Section Listing.

Lemma get_insert_ne (o : obj) (k k' : string) (v : value) :
  k ≠ k' → get (<[k := v]> o) k' = get o k'.
Proof. intros H. unfold get. by rewrite lookup_insert_ne. Qed.

Lemma get_delete_ne (o : obj) (k k' : string) :
  k ≠ k' → get (delete k o) k' = get o k'.
Proof. intros H. unfold get. by rewrite lookup_delete_ne. Qed.

Lemma get_delete (o : obj) (k : string) : get (delete k o) k = VUndefined.
Proof. unfold get. by rewrite lookup_delete_eq. Qed.

(** [whereClause] reads the three recognized keys and nothing else. *)
Lemma whereClause_ext (f1 f2 : obj) :
  (∀ k, k ∈ recognized → get f1 k = get f2 k) →
  whereClause f1 = whereClause f2.
Proof.
  intros H. unfold whereClause.
  by rewrite !(H "status"), !(H "community_member_id"), !(H "is_weekly")
    by (unfold recognized; set_solver).
Qed.

Lemma getAllChallenges_ext
    {S I : Type} {provider : Provider S I} (f1 f2 : obj) (s : S) :
  whereClause f1 = whereClause f2 →
  getAllChallenges (Some f1) s = getAllChallenges (Some f2) s.
Proof. intros H. unfold getAllChallenges. simpl. by rewrite H. Qed.

Lemma whereClause_falsy (filters : obj) (k : string) :
  k = "status" ∨ k = "community_member_id" →
  truthy (get filters k) = false →
  whereClause filters = whereClause (delete k filters).
Proof.
  intros Hk Hfalsy. unfold whereClause.
  destruct Hk as [-> | ->].
  - rewrite get_delete, Hfalsy. simpl.
    by rewrite !(get_delete_ne _ "status") by done.
  - rewrite get_delete, Hfalsy. simpl.
    by rewrite !(get_delete_ne _ "community_member_id") by done.
Qed.

Lemma selected_empty (row : obj) : selected ∅ row.
Proof. unfold selected, get. rewrite !lookup_empty. simpl. done. Qed.

Lemma selected_is_weekly (v : value) (row : obj) :
  v ≠ VUndefined →
  selected {["is_weekly" := v]} row ↔ column row "is_weekly" = v.
Proof.
  intros Hv. unfold selected, get.
  rewrite lookup_singleton_eq, !lookup_singleton_ne by done. simpl.
  split; [intros (_ & _ & H); by apply H | intros H; by split_and!].
Qed.

End Listing.

(** C4. The [is_weekly] filter.  [whereClause] has the key [is_weekly]
    exactly when the filter set gives [is_weekly] a value, [false] among
    them; [getAllChallenges({ is_weekly: false })] returns exactly the
    records whose [is_weekly] is [false]; a filter set that leaves
    [is_weekly] unset restricts by the two other keys alone.  On the
    sample, where record 3 never had [is_weekly] set, the two calls
    differ. *)
Theorem getAllChallenges_is_weekly (filters : obj) (st : store) :
  whereClause filters !! "is_weekly"
  = (if decide (get filters "is_weekly" = VUndefined) then None
     else Some (get filters "is_weekly"))
  ∧ (∃ l, getAllChallenges (Some {["is_weekly" := VBool false]}) st
          = (Ok l, st)
        ∧ l ≡ₚ filter (λ row, column row "is_weekly" = VBool false) (table st)
        ∧ newest_first l)
  ∧ (get filters "is_weekly" = VUndefined →
     ∃ l, getAllChallenges (Some filters) st = (Ok l, st)
        ∧ l ≡ₚ filter (λ row,
                 (truthy (get filters "status") = true →
                    column row "status" = get filters "status")
                 ∧ (truthy (get filters "community_member_id") = true →
                    column row "community_member_id"
                    = get filters "community_member_id")) (table st))
  ∧ getAllChallenges (Some {["is_weekly" := VBool false]}) Sample.challenges
    = (Ok [Sample.challenge1], Sample.challenges)
  ∧ getAllChallenges (Some ∅) Sample.challenges
    = (Ok [Sample.challenge2; Sample.challenge3; Sample.challenge1],
       Sample.challenges).
Proof.
  split_and!.
  - by rewrite whereClause_lookup.
  - destruct (mem_getAllChallenges {["is_weekly" := VBool false]} st)
      as (l & Hrun & Hperm & Hsorted).
    exists l. split_and!; [done| |done]. rewrite Hperm.
    erewrite list_filter_iff; [done|]. intros row.
    by apply selected_is_weekly.
  - intros Hunset.
    destruct (mem_getAllChallenges filters st) as (l & Hrun & Hperm & _).
    exists l. split; [done|]. rewrite Hperm.
    erewrite list_filter_iff; [done|]. intros row.
    unfold selected. rewrite Hunset.
    split; [intros (? & ? & _); by split | intros [? ?]; by split_and!].
  - evaluate.
  - evaluate.
Qed.

Lemma getAllChallenges_is_weekly_witness :
  get ({["status" := VStr "pending"]} : obj) "is_weekly" = VUndefined
  ∧ ∃ l, getAllChallenges (Some {["status" := VStr "pending"]})
           Sample.challenges = (Ok l, Sample.challenges)
       ∧ l ≡ₚ filter (λ row,
                (truthy (get ({["status" := VStr "pending"]} : obj) "status")
                 = true →
                   column row "status"
                   = get ({["status" := VStr "pending"]} : obj) "status")
                ∧ (truthy (get ({["status" := VStr "pending"]} : obj)
                             "community_member_id") = true →
                   column row "community_member_id"
                   = get ({["status" := VStr "pending"]} : obj)
                       "community_member_id"))
              (table Sample.challenges).
Proof.
  split; [reflexivity|].
  exact (proj1 (proj2 (proj2 (getAllChallenges_is_weekly
                                {["status" := VStr "pending"]}
                                Sample.challenges))) eq_refl).
Defined.

(** C8, as the claim has it, fails on a recognized key with a falsy value.
    The filter set [{ community_member_id: 0 }] returns the three records
    of the sample, none of which has the member 0, and [{ status: "" }]
    returns them too, none of which has the empty status: an exact match on
    these keys would return no record. *)
Lemma getAllChallenges_falsy_value_is_no_match :
  getAllChallenges (Some {["community_member_id" := VNum 0]}) Sample.challenges
  = (Ok [Sample.challenge2; Sample.challenge3; Sample.challenge1],
     Sample.challenges)
  ∧ filter (λ row, column row "community_member_id" = VNum 0)
      (table Sample.challenges) = []
  ∧ getAllChallenges (Some {["status" := VStr ""]}) Sample.challenges
    = (Ok [Sample.challenge2; Sample.challenge3; Sample.challenge1],
       Sample.challenges)
  ∧ filter (λ row, column row "status" = VStr "") (table Sample.challenges)
    = [].
Proof. split_and!; evaluate. Qed.

(** C8, amended.  [getAllChallenges] returns exactly the records that match
    the filter set on the recognized keys, newest first: [status] and
    [community_member_id], each an equality with the column, applied when
    the value given is truthy; [is_weekly], an equality with the column,
    applied when the value given is not [undefined].  A key that is not one
    of the three changes nothing; the empty filter set, and no filter set
    at all, return every record.  On the sample: [{ status: "pending" }]
    returns records 3 and 1, [{ community_member_id: 8 }] returns record 2,
    [{ status: "pending", is_weekly: false }] returns record 1, and
    [{ status: "done", community_member_id: 7 }] returns none. *)
Theorem getAllChallenges_filters (filters : obj) (st : store) :
  (∃ l, getAllChallenges (Some filters) st = (Ok l, st)
      ∧ l ≡ₚ filter (selected filters) (table st)
      ∧ newest_first l)
  ∧ (∀ (S I : Type) (provider : Provider S I) (s : S) (k : string) (v : value),
       k ∉ recognized →
       getAllChallenges (Some (<[k := v]> filters)) s
       = getAllChallenges (Some filters) s)
  ∧ (∃ l, getAllChallenges (Some ∅) st = (Ok l, st)
        ∧ l ≡ₚ table st ∧ newest_first l)
  ∧ getAllChallenges None st = getAllChallenges (Some ∅) st
  ∧ getAllChallenges (Some {["status" := VStr "pending"]}) Sample.challenges
    = (Ok [Sample.challenge3; Sample.challenge1], Sample.challenges)
  ∧ getAllChallenges (Some {["community_member_id" := VNum 8]})
      Sample.challenges
    = (Ok [Sample.challenge2], Sample.challenges)
  ∧ getAllChallenges
      (Some (<["status" := VStr "pending"]> {["is_weekly" := VBool false]}))
      Sample.challenges
    = (Ok [Sample.challenge1], Sample.challenges)
  ∧ getAllChallenges
      (Some (<["status" := VStr "done"]> {["community_member_id" := VNum 7]}))
      Sample.challenges
    = (Ok [], Sample.challenges).
Proof.
  split_and!.
  - apply mem_getAllChallenges.
  - intros S I provider s k v Hk. apply getAllChallenges_ext, whereClause_ext.
    intros k' Hk'. apply get_insert_ne. by intros ->.
  - destruct (mem_getAllChallenges ∅ st) as (l & Hrun & Hperm & Hsorted).
    exists l. split_and!; [done| |done]. rewrite Hperm.
    clear. induction (table st) as [|row rows IH]; [done|].
    rewrite filter_cons_True by apply selected_empty. by rewrite IH.
  - done.
  - evaluate.
  - evaluate.
  - evaluate.
  - evaluate.
Qed.

Lemma getAllChallenges_filters_witness :
  ("page" ∉ recognized)
  ∧ getAllChallenges
      (Some (<["page" := VNum 2]> {["status" := VStr "pending"]}))
      Sample.challenges
    = getAllChallenges (Some {["status" := VStr "pending"]}) Sample.challenges.
Proof.
  assert ("page" ∉ recognized) as Hk.
  { unfold recognized. rewrite !not_elem_of_cons.
    split_and!; [done..|apply not_elem_of_nil]. }
  split; [exact Hk|].
  exact (proj1 (proj2 (getAllChallenges_filters
                         {["status" := VStr "pending"]} Sample.challenges))
           store obj mem_provider Sample.challenges "page" (VNum 2) Hk).
Defined.

(** C9. A falsy [status] or [community_member_id] (the empty string, 0,
    null, false) is a filter that is not applied: [whereClause] has no such
    key, and [getAllChallenges] does what it does on the filter set without
    the key, whatever the provider. *)
Theorem getAllChallenges_falsy_filter
    {S I : Type} {provider : Provider S I}
    (filters : obj) (k : string) (s : S) :
  k = "status" ∨ k = "community_member_id" →
  truthy (get filters k) = false →
  whereClause filters !! k = None
  ∧ getAllChallenges (Some filters) s
    = getAllChallenges (Some (delete k filters)) s.
Proof.
  intros Hk Hfalsy. split.
  - rewrite whereClause_lookup.
    destruct Hk as [-> | ->]; repeat case_decide; try done;
      by rewrite Hfalsy.
  - by apply getAllChallenges_ext, whereClause_falsy.
Qed.

Lemma getAllChallenges_falsy_filter_witness :
  truthy (get (<["status" := VStr ""]> {["is_weekly" := VBool true]}) "status")
  = false
  ∧ getAllChallenges
      (Some (<["status" := VStr ""]> {["is_weekly" := VBool true]}))
      Sample.challenges
    = getAllChallenges
        (Some (delete "status"
                 (<["status" := VStr ""]> {["is_weekly" := VBool true]})))
        Sample.challenges
  ∧ truthy (get ({["community_member_id" := VNum 0]} : obj)
              "community_member_id") = false
  ∧ getAllChallenges (Some {["community_member_id" := VNum 0]})
      Sample.challenges
    = getAllChallenges
        (Some (delete "community_member_id"
                 ({["community_member_id" := VNum 0]} : obj)))
        Sample.challenges.
Proof.
  split; [reflexivity|].
  split; [exact (proj2 (getAllChallenges_falsy_filter
                          (<["status" := VStr ""]> {["is_weekly" := VBool true]})
                          "status" Sample.challenges
                          (or_introl eq_refl) eq_refl))|].
  split; [reflexivity|].
  exact (proj2 (getAllChallenges_falsy_filter
                  {["community_member_id" := VNum 0]}
                  "community_member_id" Sample.challenges
                  (or_intror eq_refl) eq_refl)).
Defined.

(** * Further properties *)

(** What the methods do beyond the claims: how each one ends, what it asks
    of the provider, and how the methods compose on the in-memory store. *)

Section AnyProviderMore.
Context {T I : Type} {provider : Provider T I}.

(** X1. [createChallenge] succeeds exactly when the provider's [create]
    does, with the created instance as a plain object, and fails exactly
    when [create] fails, with the provider's error wrapped: there is no
    error it lets through. *)
Theorem createChallenge_outcomes (challengeData : obj) (s s' : T) :
  (∀ r, createChallenge challengeData s = (Ok r, s')
        ↔ ∃ c, create challengeData s = (Ok c, s') ∧ r = toJSON c)
  ∧ (∀ e, createChallenge challengeData s = (Throw e, s')
        ↔ ∃ cause, create challengeData s = (Throw cause, s')
                   ∧ e = Error (CREATE_FAILED +:+ message cause)).
Proof.
  unfold createChallenge. run_async.
  destruct (create challengeData s) as [[c|cause] s1]; split; intros r; split.
  - intros [= <- <-]. eauto.
  - by intros (c' & [= <- <-] & ->).
  - done.
  - by intros (? & [=] & _).
  - done.
  - by intros (? & [=] & _).
  - intros [= <- <-]. eauto.
  - by intros (c' & [= <- <-] & ->).
Qed.

(** X2. Every error the three listing methods throw is a plain [Error] whose
    message is the method's own text followed by the message of the
    provider's error (for [getChallengesByStatus], of its own empty-status
    error). *)
Theorem listing_errors_are_wrapped (s s' : T) (e : error) :
  (∀ filters, getAllChallenges filters s = (Throw e, s') →
     ∃ m, e = Error (LIST_FAILED +:+ m))
  ∧ (∀ searchTerm, searchChallenges searchTerm s = (Throw e, s') →
     ∃ m, e = Error (SEARCH_FAILED +:+ m))
  ∧ (∀ status, getChallengesByStatus status s = (Throw e, s') →
     ∃ m, e = Error (BY_STATUS_FAILED +:+ m)).
Proof.
  split_and!.
  - intros filters. unfold getAllChallenges. run_async.
    destruct (findAll _ s) as [[l|cause] s1]; [done|].
    intros [= <- <-]. eauto.
  - intros searchTerm. unfold searchChallenges. run_async.
    destruct (_ || _); [done|].
    destruct (findAll _ s) as [[l|cause] s1]; [done|].
    intros [= <- <-]. eauto.
  - intros status. unfold getChallengesByStatus. run_async.
    destruct (truthy status); simpl.
    + destruct (findAll _ s) as [[l|cause] s1]; [done|].
      intros [= <- <-]. eauto.
    + intros [= <- <-]. eauto.
Qed.

Lemma rethrow_guard (text prefix : string) (cause : error) :
  (if String.eqb (message cause) text then cause
   else Error (prefix +:+ message cause))
  = (if decide (message cause = text) then cause
     else Error (prefix +:+ message cause)).
Proof.
  case_decide as Hm.
  - apply String.eqb_eq in Hm. by rewrite Hm.
  - apply String.eqb_neq in Hm. by rewrite Hm.
Qed.

Lemma throw_guard_inv (text prefix : string) (cause e : error) (s1 s' : T) :
  (if String.eqb (message cause) text
   then throw cause
   else throw (Error (prefix +:+ message cause))) s1
  = (@Throw obj e, s') →
  s1 = s'
  ∧ e = (if decide (message cause = text) then cause
         else Error (prefix +:+ message cause)).
Proof.
  rewrite <-rethrow_guard. unfold throw.
  destruct (String.eqb (message cause) text); by intros [= <- <-].
Qed.

(** X4. How [updateChallenge] fails: with its not-found error when the lookup
    finds nothing, and otherwise only when the provider fails, in the
    lookup or in the write; the provider's error is then wrapped, unless its
    message is the not-found text. *)
Theorem updateChallenge_failures
    (id : value) (updateData : obj) (s s' : T) (e : error) :
  updateChallenge id updateData s = (Throw e, s') →
  (e = Error UPDATE_NOT_FOUND ∧ findByPk id s = (Ok None, s'))
  ∨ ∃ cause,
      (findByPk id s = (Throw cause, s')
       ∨ ∃ challenge s1, findByPk id s = (Ok (Some challenge), s1)
                         ∧ update challenge updateData s1 = (Throw cause, s'))
      ∧ e = (if decide (message cause = UPDATE_NOT_FOUND) then cause
             else Error (UPDATE_FAILED +:+ message cause)).
Proof.
  unfold updateChallenge. run_async.
  destruct (findByPk id s) as [[[c|]|cause] s1] eqn:Hfind.
  - destruct (update c updateData s1) as [[u|cause] s2] eqn:Hupdate; [done|].
    intros [-> ->]%throw_guard_inv. right. exists cause. split; [|done].
    right. eauto.
  - intros [= <- <-]. by left.
  - intros [-> ->]%throw_guard_inv. right. exists cause. split; [|done].
    by left.
Qed.

(** X5. What [deleteChallenge] returns: only after the lookup found a record
    and the provider destroyed it, an object of exactly three keys: the
    identifier as the caller gave it, [deleted: true] and the message. *)
Theorem deleteChallenge_confirmation (id : value) (s s' : T) (r : obj) :
  deleteChallenge id s = (Ok r, s') →
  (∃ challenge s1, findByPk id s = (Ok (Some challenge), s1)
                   ∧ destroy challenge s1 = (Ok (), s'))
  ∧ r !! "id" = Some id
  ∧ r !! "deleted" = Some (VBool true)
  ∧ r !! "message" = Some (VStr DELETED)
  ∧ ∀ k, is_Some (r !! k) → k ∈ ["id"; "deleted"; "message"].
Proof.
  unfold deleteChallenge. run_async.
  destruct (findByPk id s) as [[[c|]|cause] s1] eqn:Hfind.
  - destruct (destroy c s1) as [[[]|cause] s2] eqn:Hdestroy.
    + intros [= <- <-]. split; [eauto|].
      split_and!; [by simplify_map_eq..|].
      intros k [v Hk]. rewrite !elem_of_cons.
      destruct (decide (k = "id")) as [->|]; [by left|].
      destruct (decide (k = "deleted")) as [->|]; [by right; left|].
      destruct (decide (k = "message")) as [->|]; [by right; right; left|].
      by simplify_map_eq.
    + by destruct (String.eqb (message cause) DELETE_NOT_FOUND).
  - done.
  - by destruct (String.eqb (message cause) DELETE_NOT_FOUND).
Qed.

(** X6. How [deleteChallenge] fails: with its not-found error when the
    lookup finds nothing, and otherwise only when the provider fails, in the
    lookup or in [destroy]; the provider's error is then wrapped, unless its
    message is the not-found text. *)
Theorem deleteChallenge_failures (id : value) (s s' : T) (e : error) :
  deleteChallenge id s = (Throw e, s') →
  (e = Error DELETE_NOT_FOUND ∧ findByPk id s = (Ok None, s'))
  ∨ ∃ cause,
      (findByPk id s = (Throw cause, s')
       ∨ ∃ challenge s1, findByPk id s = (Ok (Some challenge), s1)
                         ∧ destroy challenge s1 = (Throw cause, s'))
      ∧ e = (if decide (message cause = DELETE_NOT_FOUND) then cause
             else Error (DELETE_FAILED +:+ message cause)).
Proof.
  unfold deleteChallenge. run_async.
  destruct (findByPk id s) as [[[c|]|cause] s1] eqn:Hfind.
  - destruct (destroy c s1) as [[[]|cause] s2] eqn:Hdestroy; [done|].
    intros [-> ->]%throw_guard_inv. right. exists cause. split; [|done].
    right. eauto.
  - intros [= <- <-]. by left.
  - intros [-> ->]%throw_guard_inv. right. exists cause. split; [|done].
    by left.
Qed.


(** X7. Every falsy status ([undefined], [null], [false], 0, [NaN], the
    empty string) is rejected as the empty one is: with the wrapped
    empty-status error, the store not touched. *)
Theorem getChallengesByStatus_falsy (status : value) (s : T) :
  truthy status = false →
  getChallengesByStatus status s
  = (Throw (Error (BY_STATUS_FAILED +:+ STATUS_EMPTY)), s).
Proof. intros H. unfold getChallengesByStatus. by rewrite H. Qed.

(** X8. For a truthy status [getChallengesByStatus] is [getAllChallenges]
    on the filter set [{ status }]: the two return the same records and
    leave the same store, and one fails when the other does, each with its
    own text before the provider's message. *)
Theorem getChallengesByStatus_as_filter (status : value) (s s' : T) :
  truthy status = true →
  (∀ l, getChallengesByStatus status s = (Ok l, s')
        ↔ getAllChallenges (Some {["status" := status]}) s = (Ok l, s'))
  ∧ (∀ m, getChallengesByStatus status s
          = (Throw (Error (BY_STATUS_FAILED +:+ m)), s')
        ↔ getAllChallenges (Some {["status" := status]}) s
          = (Throw (Error (LIST_FAILED +:+ m)), s')).
Proof.
  intros Htruthy.
  assert (whereClause {["status" := status]} = {["status" := status]}) as Hw.
  { unfold whereClause, get.
    rewrite lookup_singleton_eq, !lookup_singleton_ne by done. simpl.
    by rewrite Htruthy. }
  assert (∀ (p : string) (cause : error) (m : string) (s1 : T),
            (@Throw (list obj) (Error (p +:+ message cause)), s1)
            = (Throw (Error (p +:+ m)), s')
            ↔ message cause = m ∧ s1 = s') as Hthrow.
  { intros p cause m s1. split; [|by intros [-> ->]].
    intros H. assert (s1 = s') as -> by congruence. split; [|done].
    assert (Error (p +:+ message cause) = Error (p +:+ m)) as He
      by congruence.
    by apply Error_inj, (inj (String.app p)) in He. }
  unfold getChallengesByStatus, getAllChallenges. simpl.
  rewrite Htruthy, Hw. run_async.
  destruct (findAll _ s) as [[l0|cause] s1]; split; intros x; try done.
  by rewrite !Hthrow.
Qed.

End AnyProviderMore.

(** X9. [whereClause] carries nothing but the recognized keys, each with the
    value the filter set gives it; no value is [undefined], and the values
    of [status] and [community_member_id] are truthy. *)
Theorem whereClause_entries (filters : obj) (k : string) (v : value) :
  whereClause filters !! k = Some v →
  k ∈ recognized
  ∧ v = get filters k
  ∧ v ≠ VUndefined
  ∧ (k ≠ "is_weekly" → truthy v = true).
Proof.
  rewrite whereClause_lookup. unfold recognized.
  repeat case_decide; subst; try done.
  - intros [= <-]. split_and!; [set_solver|done..].
  - destruct (truthy (get filters "community_member_id")) eqn:Ht; [|done].
    intros [= <-]. split_and!; [set_solver|done| |done].
    intros Hv. by rewrite Hv in Ht.
  - destruct (truthy (get filters "status")) eqn:Ht; [|done].
    intros [= <-]. split_and!; [set_solver|done| |done].
    intros Hv. by rewrite Hv in Ht.
Qed.

Section CountingMore.
Context {T I : Type} (P : Provider T I).

(** X10. How often a method calls the provider: once for
    [createChallenge] and [getChallengeById]; once for the lookup of
    [updateChallenge] and [deleteChallenge] and once more for the write
    when the lookup found a record; once for a search term that is a string
    and not blank and for a truthy status, and not at all otherwise. *)
Theorem provider_calls (s : T) (n : nat) :
  (∀ data,
     calls (createChallenge (provider := counting_provider P) data (s, n))
     = S n)
  ∧ (∀ id,
     calls (getChallengeById (provider := counting_provider P) id (s, n))
     = S n)
  ∧ (∀ id data,
     calls (updateChallenge (provider := counting_provider P) id data (s, n))
     = match fst (findByPk (Provider := P) id s) with
       | Ok (Some _) => S (S n)
       | _ => S n
       end)
  ∧ (∀ id,
     calls (deleteChallenge (provider := counting_provider P) id (s, n))
     = match fst (findByPk (Provider := P) id s) with
       | Ok (Some _) => S (S n)
       | _ => S n
       end)
  ∧ (∀ searchTerm,
     calls (searchChallenges (provider := counting_provider P) searchTerm (s, n))
     = match searchTerm with
       | VStr term => if decide (trim term = "") then n else S n
       | _ => n
       end)
  ∧ (∀ status,
     calls (getChallengesByStatus (provider := counting_provider P) status (s, n))
     = if truthy status then S n else n).
Proof.
  unfold calls. split_and!.
  - intros data. unfold createChallenge. run_async.
    by destruct (create data s) as [[c|e] s1].
  - intros id. unfold getChallengeById. run_async.
    destruct (findByPk id s) as [[[c|]|e] s1]; simpl; try done.
    by destruct (String.eqb (message e) GET_NOT_FOUND).
  - intros id data. unfold updateChallenge. run_async.
    destruct (findByPk id s) as [[[c|]|e] s1]; simpl; try done.
    + destruct (update c data s1) as [[u|e] s2]; simpl; [done|].
      by destruct (String.eqb (message e) UPDATE_NOT_FOUND).
    + by destruct (String.eqb (message e) UPDATE_NOT_FOUND).
  - intros id. unfold deleteChallenge. run_async.
    destruct (findByPk id s) as [[[c|]|e] s1]; simpl; try done.
    + destruct (destroy c s1) as [[[]|e] s2]; simpl; [done|].
      by destruct (String.eqb (message e) DELETE_NOT_FOUND).
    + by destruct (String.eqb (message e) DELETE_NOT_FOUND).
  - intros searchTerm. unfold searchChallenges. run_async.
    destruct searchTerm as [| |b|z| |term|t|r]; simpl;
      rewrite ?orb_true_r; try done.
    rewrite orb_false_r. destruct (String.eqb_spec term "") as [->|Hne].
    + done.
    + simpl. case_decide as Ht.
      * apply String.eqb_eq in Ht. by rewrite Ht.
      * apply String.eqb_neq in Ht. rewrite Ht. simpl.
        by destruct (findAll _ s) as [[l|e] s1].
  - intros status. unfold getChallengesByStatus. run_async.
    destruct (truthy status); simpl; [|done].
    by destruct (findAll _ s) as [[l|e] s1].
Qed.

End CountingMore.

Section MemoryMore.

Lemma like_self (text : string) : like_match text text = true.
Proof.
  induction text as [|c text IH]; [done|].
  destruct (Ascii.eqb c "%") eqn:Hp; [|destruct (Ascii.eqb c "_") eqn:Hu].
  - apply Ascii.eqb_eq in Hp as ->. apply like_percent_iff.
    by exists "%", text.
  - apply Ascii.eqb_eq in Hu as ->. done.
  - simpl. by rewrite Hp, Hu, Ascii.eqb_refl.
Qed.

Lemma title_or_description_impl (P Q : string → Prop) (row : obj) :
  (∀ text, P text → Q text) →
  title_or_description P row → title_or_description Q row.
Proof.
  intros HPQ [(text & ? & ?)|(text & ? & ?)]; [left|right]; eauto.
Qed.

(** X11. A search misses no record: whatever the term (not blank), with
    wildcards or without, every record whose title or description contains
    the term is returned; what is returned is in the table, newest
    first. *)
Theorem searchChallenges_complete (term : string) (st : store) :
  ¬ whitespace_only term →
  ∃ l, searchChallenges (VStr term) st = (Ok l, st)
     ∧ (∀ row, row ∈ table st →
          title_or_description (λ text, contains text term) row → row ∈ l)
     ∧ (∀ row, row ∈ l → row ∈ table st)
     ∧ newest_first l.
Proof.
  intros Hterm.
  destruct (mem_searchChallenges term st Hterm) as (l & Hrun & Hperm & Hsorted).
  exists l. split_and!; [done| | |done].
  - intros row Hrow Hcontains. rewrite Hperm, list_elem_of_filter.
    split; [|done]. apply satisfies_search.
    eapply title_or_description_impl; [|exact Hcontains].
    intros text (front & back & ->). apply like_search_pattern.
    exists front, term, back. split; [done|apply like_self].
  - intros row. rewrite Hperm, list_elem_of_filter. tauto.
Qed.

Lemma satisfies_singleton (k : string) (v : value) (row : obj) :
  satisfies (Where {[k := v]}) row = true ↔ column row k = v.
Proof.
  unfold satisfies. by rewrite bool_decide_eq_true, map_Forall_singleton.
Qed.

(** X12. On the in-memory store [getChallengesByStatus] returns, for a truthy
    status, exactly the records with that status, newest first. *)
Theorem getChallengesByStatus_rows (status : value) (st : store) :
  truthy status = true →
  ∃ l, getChallengesByStatus status st = (Ok l, st)
     ∧ l ≡ₚ filter (λ row, column row "status" = status) (table st)
     ∧ newest_first l.
Proof.
  intros Htruthy.
  destruct (mem_findAll_newest_first (Where {["status" := status]}) st)
    as (rows & Hrun & Hperm & Hsorted).
  exists rows. split_and!; [| |done].
  - unfold getChallengesByStatus. rewrite Htruthy.
    unfold try_catch, mbind, async_bind, bind. cbn [negb].
    rewrite Hrun. unfold mret, async_ret, ret.
    change (toJSON <$> rows) with (id <$> rows). by rewrite list_fmap_id.
  - rewrite Hperm. erewrite list_filter_iff; [done|].
    intros row. apply satisfies_singleton.
Qed.

Lemma mem_getChallengeById_found (id : value) (r : obj) (st st' : store) :
  getChallengeById id st = (Ok r, st')
  ↔ find (has_id id) (table st) = Some r ∧ st' = st.
Proof.
  unfold getChallengeById. run_async. unfold mem_findByPk.
  destruct (find (has_id id) (table st)) as [r'|]; simpl.
  - split; [by intros [= -> ->] | by intros [[= ->] ->]].
  - split; [done | by intros [[=] _]].
Qed.

Lemma mem_getChallengeById_missing (id : value) (st : store) :
  find (has_id id) (table st) = None →
  getChallengeById id st = (Throw (Error GET_NOT_FOUND), st).
Proof.
  intros H. apply getChallengeById_missing. simpl. unfold mem_findByPk.
  by rewrite H.
Qed.


Lemma mem_getChallengeById (id : value) (st : store) :
  getChallengeById id st
  = (match find (has_id id) (table st) with
     | Some r => Ok r
     | None => Throw (Error GET_NOT_FOUND)
     end, st).
Proof.
  unfold getChallengeById. run_async. unfold mem_findByPk.
  by destruct (find (has_id id) (table st)).
Qed.

Lemma has_id_true (id : value) (row : obj) :
  has_id id row = true ↔ column row "id" = id.
Proof. unfold has_id. apply bool_decide_eq_true. Qed.

Lemma find_fmap_stable (f : obj → obj) (id : value) (rows : list obj) :
  (∀ row, has_id id (f row) = has_id id row) →
  find (has_id id) (f <$> rows) = f <$> find (has_id id) rows.
Proof.
  intros Hf. induction rows as [|row rows IH]; [done|].
  rewrite fmap_cons. simpl. rewrite Hf.
  by destruct (has_id id row).
Qed.

Lemma find_filter_other (id id' : value) (rows : list obj) :
  id' ≠ id →
  find (has_id id') (filter (λ row, has_id id row = false) rows)
  = find (has_id id') rows.
Proof.
  intros Hne. induction rows as [|row rows IH]; [done|].
  destruct (has_id id row) eqn:Hid.
  - rewrite filter_cons_False by (by rewrite Hid). simpl.
    apply has_id_true in Hid.
    destruct (has_id id' row) eqn:Hid'; [|done].
    apply has_id_true in Hid'. congruence.
  - rewrite filter_cons_True by done. simpl. by rewrite IH.
Qed.

Lemma find_filter_same (id : value) (rows : list obj) :
  find (has_id id) (filter (λ row, has_id id row = false) rows) = None.
Proof.
  induction rows as [|row rows IH]; [done|].
  destruct (has_id id row) eqn:Hid.
  - by rewrite filter_cons_False by (by rewrite Hid).
  - rewrite filter_cons_True by done. simpl. by rewrite Hid.
Qed.

(** X13. Update, then read, on the in-memory store.  When the record is there
    and the update object does not name [id]: [updateChallenge] returns the
    record with the fields given replaced and the others as they were, a
    following [getChallengeById] returns that record, and the records of
    other identifiers are read as before. *)
Theorem updateChallenge_then_get
    (id : value) (updateData r : obj) (st : store) :
  getChallengeById id st = (Ok r, st) →
  updateData !! "id" = None →
  ∃ updated st',
    updateChallenge id updateData st = (Ok updated, st')
    ∧ (∀ k v, updateData !! k = Some v → updated !! k = Some v)
    ∧ (∀ k, updateData !! k = None → updated !! k = r !! k)
    ∧ getChallengeById id st' = (Ok updated, st')
    ∧ (∀ id', id' ≠ id →
         fst (getChallengeById id' st') = fst (getChallengeById id' st)).
Proof.
  intros [Hfind _]%mem_getChallengeById_found Hid.
  assert (column r "id" = id) as Hr.
  { apply has_id_true. by apply find_some in Hfind as [_ ?]. }
  set (change := λ row : obj,
         if has_id (column r "id") row then updateData ∪ row else row).
  assert (∀ id' row, has_id id' (change row) = has_id id' row) as Hstable.
  { intros id' row. unfold change.
    destruct (has_id (column r "id") row); [|done].
    unfold has_id, column. by rewrite lookup_union_r. }
  assert (delete "id" updateData = updateData) as Hkept by by apply delete_id.
  exists (updateData ∪ r), (Store (change <$> table st) (next_id st) (clock st)).
  split_and!.
  - rewrite (updateChallenge_forwards id updateData st st r)
      by (simpl; unfold mem_findByPk; by rewrite Hfind).
    simpl. unfold mem_update, change. by rewrite Hkept.
  - intros k v Hk. by apply lookup_union_Some_l.
  - intros k Hk. by apply lookup_union_r.
  - rewrite mem_getChallengeById. simpl.
    rewrite find_fmap_stable, Hfind by done. simpl.
    unfold change.
    by assert (has_id (column r "id") r = true) as -> by by apply has_id_true.
  - intros id' Hne. rewrite !mem_getChallengeById. simpl.
    rewrite find_fmap_stable by done.
    destruct (find (has_id id') (table st)) as [row|] eqn:Hrow; [|done].
    simpl. unfold change.
    destruct (has_id (column r "id") row) eqn:Hsame; [|done].
    apply find_some in Hrow as [_ Hrow%has_id_true].
    apply has_id_true in Hsame. congruence.
Qed.

(** X14. Delete, then read, on the in-memory store.  When the record is there,
    [deleteChallenge] confirms, a following [getChallengeById] and a second
    [deleteChallenge] fail with their not-found errors, and the records of
    other identifiers are read as before. *)
Theorem deleteChallenge_then_get (id : value) (r : obj) (st : store) :
  getChallengeById id st = (Ok r, st) →
  ∃ confirmation st',
    deleteChallenge id st = (Ok confirmation, st')
    ∧ get confirmation "id" = id
    ∧ get confirmation "deleted" = VBool true
    ∧ getChallengeById id st' = (Throw (Error GET_NOT_FOUND), st')
    ∧ deleteChallenge id st' = (Throw (Error DELETE_NOT_FOUND), st')
    ∧ (∀ id', id' ≠ id →
         fst (getChallengeById id' st') = fst (getChallengeById id' st)).
Proof.
  intros [Hfind _]%mem_getChallengeById_found.
  assert (column r "id" = id) as Hr.
  { apply has_id_true. by apply find_some in Hfind as [_ ?]. }
  eexists _, (Store (filter (λ row, has_id id row = false) (table st))
                (next_id st) (clock st)).
  split_and!.
  - unfold deleteChallenge. run_async. unfold mem_findByPk.
    rewrite Hfind. simpl. by rewrite Hr.
  - unfold get. by simplify_map_eq.
  - unfold get. by simplify_map_eq.
  - apply mem_getChallengeById_missing. simpl. apply find_filter_same.
  - apply deleteChallenge_missing. simpl. unfold mem_findByPk. simpl.
    by rewrite find_filter_same.
  - intros id' Hne. rewrite !mem_getChallengeById. simpl.
    by rewrite find_filter_other.
Qed.


(** X15. [is_weekly] filters on any value that is not [undefined]: [null]
    selects the records whose [is_weekly] was never set. *)
Theorem getAllChallenges_is_weekly_value (v : value) (st : store) :
  v ≠ VUndefined →
  ∃ l, getAllChallenges (Some {["is_weekly" := v]}) st = (Ok l, st)
     ∧ l ≡ₚ filter (λ row, column row "is_weekly" = v) (table st)
     ∧ newest_first l.
Proof.
  intros Hv.
  destruct (mem_getAllChallenges {["is_weekly" := v]} st)
    as (l & Hrun & Hperm & Hsorted).
  exists l. split_and!; [done| |done]. rewrite Hperm.
  erewrite list_filter_iff; [done|]. intros row.
  by apply selected_is_weekly.
Qed.

End MemoryMore.

Section AnyProviderSuccess.
Context {T I : Type} {provider : Provider T I}.

(** X3. When [updateChallenge] succeeds: the lookup found the record, the
    provider updated it with the update object as the caller gave it, and
    the result is the updated instance as a plain object. *)
Theorem updateChallenge_success
    (id : value) (updateData r : obj) (s s' : T) :
  updateChallenge id updateData s = (Ok r, s')
  ↔ ∃ challenge s1 updatedChallenge,
      findByPk id s = (Ok (Some challenge), s1)
      ∧ update challenge updateData s1 = (Ok updatedChallenge, s')
      ∧ r = toJSON updatedChallenge.
Proof.
  unfold updateChallenge. run_async.
  destruct (findByPk id s) as [[[c|]|cause] s1].
  - destruct (update c updateData s1) as [[u|cause] s2] eqn:Hupdate; split.
    + intros [= <- <-]. by exists c, s1, u.
    + intros (c' & s1' & u' & [= <- <-] & Hu & ->).
      rewrite Hupdate in Hu. by injection Hu as <- <-.
    + by destruct (String.eqb (message cause) UPDATE_NOT_FOUND).
    + intros (c' & s1' & u' & [= <- <-] & Hu & _). congruence.
  - split; [done|]. by intros (? & ? & ? & [=] & _).
  - split; [by destruct (String.eqb (message cause) UPDATE_NOT_FOUND)|].
    by intros (? & ? & ? & [=] & _).
Qed.

End AnyProviderSuccess.

Lemma listing_errors_are_wrapped_witness :
  let failure := Sample.database_error "connection refused" in
  searchChallenges (provider := down_provider failure) (VStr "abc") ()
  = (Throw (Error (SEARCH_FAILED +:+ "connection refused")), ())
  ∧ ∃ m, Error (SEARCH_FAILED +:+ "connection refused")
         = Error (SEARCH_FAILED +:+ m).
Proof.
  intros failure.
  assert (searchChallenges (provider := down_provider failure) (VStr "abc") ()
          = (Throw (Error (SEARCH_FAILED +:+ "connection refused")), ()))
    as Hrun by evaluate.
  split; [exact Hrun|].
  exact (proj1 (proj2 (listing_errors_are_wrapped
                         (provider := down_provider failure) () ()
                         (Error (SEARCH_FAILED +:+ "connection refused"))))
           (VStr "abc") Hrun).
Defined.

Lemma updateChallenge_failures_witness :
  let failure := Sample.database_error "connection refused" in
  updateChallenge (provider := down_provider failure)
    (VNum 1) {["status" := VStr "done"]} ()
  = (Throw (Error (UPDATE_FAILED +:+ "connection refused")), ())
  ∧ ((Error (UPDATE_FAILED +:+ "connection refused") = Error UPDATE_NOT_FOUND
      ∧ findByPk (Provider := down_provider failure) (VNum 1) ()
        = (Ok None, ()))
     ∨ ∃ cause,
         (findByPk (Provider := down_provider failure) (VNum 1) ()
          = (Throw cause, ())
          ∨ ∃ challenge s1,
              findByPk (Provider := down_provider failure) (VNum 1) ()
              = (Ok (Some challenge), s1)
              ∧ update (Provider := down_provider failure)
                  challenge {["status" := VStr "done"]} s1
                = (Throw cause, ()))
         ∧ Error (UPDATE_FAILED +:+ "connection refused")
           = (if decide (message cause = UPDATE_NOT_FOUND) then cause
              else Error (UPDATE_FAILED +:+ message cause))).
Proof.
  intros failure.
  assert (updateChallenge (provider := down_provider failure)
            (VNum 1) {["status" := VStr "done"]} ()
          = (Throw (Error (UPDATE_FAILED +:+ "connection refused")), ()))
    as Hrun by evaluate.
  split; [exact Hrun|].
  exact (updateChallenge_failures (provider := down_provider failure)
           (VNum 1) {["status" := VStr "done"]} () ()
           (Error (UPDATE_FAILED +:+ "connection refused")) Hrun).
Defined.

Lemma deleteChallenge_confirmation_witness :
  ∃ r st',
    deleteChallenge (VNum 2) Sample.challenges = (Ok r, st')
    ∧ r !! "id" = Some (VNum 2)
    ∧ r !! "deleted" = Some (VBool true)
    ∧ r !! "message" = Some (VStr DELETED).
Proof.
  eexists _, _.
  assert (deleteChallenge (VNum 2) Sample.challenges
          = (Ok (<["id" := VNum 2]>
                   (<["deleted" := VBool true]> {["message" := VStr DELETED]})),
             Store [Sample.challenge1; Sample.challenge3] 4 30))
    as Hrun by evaluate.
  split; [exact Hrun|].
  destruct (deleteChallenge_confirmation _ _ _ _ Hrun) as (_ & H1 & H2 & H3 & _).
  exact (conj H1 (conj H2 H3)).
Defined.

Lemma deleteChallenge_failures_witness :
  deleteChallenge (VNum 5) Sample.challenges
  = (Throw (Error DELETE_NOT_FOUND), Sample.challenges)
  ∧ ((Error DELETE_NOT_FOUND = Error DELETE_NOT_FOUND
      ∧ findByPk (VNum 5) Sample.challenges = (Ok None, Sample.challenges))
     ∨ ∃ cause,
         (findByPk (VNum 5) Sample.challenges = (Throw cause, Sample.challenges)
          ∨ ∃ challenge s1,
              findByPk (VNum 5) Sample.challenges = (Ok (Some challenge), s1)
              ∧ destroy challenge s1 = (Throw cause, Sample.challenges))
         ∧ Error DELETE_NOT_FOUND
           = (if decide (message cause = DELETE_NOT_FOUND) then cause
              else Error (DELETE_FAILED +:+ message cause))).
Proof.
  assert (deleteChallenge (VNum 5) Sample.challenges
          = (Throw (Error DELETE_NOT_FOUND), Sample.challenges))
    as Hrun by evaluate.
  split; [exact Hrun|].
  exact (deleteChallenge_failures (VNum 5) Sample.challenges Sample.challenges
           (Error DELETE_NOT_FOUND) Hrun).
Defined.

Lemma getChallengesByStatus_falsy_witness :
  truthy VNull = false
  ∧ getChallengesByStatus VNull Sample.challenges
    = (Throw (Error (BY_STATUS_FAILED +:+ STATUS_EMPTY)), Sample.challenges)
  ∧ truthy (VNum 0) = false
  ∧ getChallengesByStatus (VNum 0) Sample.challenges
    = (Throw (Error (BY_STATUS_FAILED +:+ STATUS_EMPTY)), Sample.challenges).
Proof.
  split; [reflexivity|].
  split; [exact (getChallengesByStatus_falsy VNull Sample.challenges eq_refl)|].
  split; [reflexivity|].
  exact (getChallengesByStatus_falsy (VNum 0) Sample.challenges eq_refl).
Defined.

Lemma getChallengesByStatus_as_filter_witness :
  truthy (VStr "done") = true
  ∧ (getChallengesByStatus (VStr "done") Sample.challenges
     = (Ok [Sample.challenge2], Sample.challenges)
     ↔ getAllChallenges (Some {["status" := VStr "done"]}) Sample.challenges
       = (Ok [Sample.challenge2], Sample.challenges)).
Proof.
  split; [reflexivity|].
  exact (proj1 (getChallengesByStatus_as_filter (VStr "done")
                  Sample.challenges Sample.challenges eq_refl)
           [Sample.challenge2]).
Defined.

Lemma whereClause_entries_witness :
  whereClause (<["status" := VStr "pending"]> {["page" := VNum 2]})
    !! "status" = Some (VStr "pending")
  ∧ "status" ∈ recognized
  ∧ VStr "pending"
    = get (<["status" := VStr "pending"]> {["page" := VNum 2]}) "status"
  ∧ VStr "pending" ≠ VUndefined
  ∧ ("status" ≠ "is_weekly" → truthy (VStr "pending") = true).
Proof.
  assert (whereClause (<["status" := VStr "pending"]> {["page" := VNum 2]})
            !! "status" = Some (VStr "pending")) as Hk by evaluate.
  split; [exact Hk|].
  exact (whereClause_entries _ _ _ Hk).
Defined.

Lemma searchChallenges_complete_witness :
  ¬ whitespace_only "a_c"
  ∧ ∃ l, searchChallenges (VStr "a_c") Sample.challenges
         = (Ok l, Sample.challenges)
       ∧ (∀ row, row ∈ table Sample.challenges →
            title_or_description (λ text, contains text "a_c") row → row ∈ l)
       ∧ (∀ row, row ∈ l → row ∈ table Sample.challenges)
       ∧ newest_first l.
Proof.
  assert (¬ whitespace_only "a_c") as Hterm.
  { intros H%whitespace_only_literal. discriminate H. }
  split; [exact Hterm|].
  exact (searchChallenges_complete "a_c" Sample.challenges Hterm).
Defined.

Lemma getChallengesByStatus_rows_witness :
  truthy (VStr "pending") = true
  ∧ ∃ l, getChallengesByStatus (VStr "pending") Sample.challenges
         = (Ok l, Sample.challenges)
       ∧ l ≡ₚ filter (λ row, column row "status" = VStr "pending")
                (table Sample.challenges)
       ∧ newest_first l.
Proof.
  split; [reflexivity|].
  exact (getChallengesByStatus_rows (VStr "pending") Sample.challenges eq_refl).
Defined.

Lemma updateChallenge_then_get_witness :
  getChallengeById (VNum 1) Sample.challenges
  = (Ok Sample.challenge1, Sample.challenges)
  ∧ ({["status" := VStr "done"]} : obj) !! "id" = None
  ∧ ∃ updated st',
      updateChallenge (VNum 1) {["status" := VStr "done"]} Sample.challenges
      = (Ok updated, st')
      ∧ (∀ k v, ({["status" := VStr "done"]} : obj) !! k = Some v →
           updated !! k = Some v)
      ∧ (∀ k, ({["status" := VStr "done"]} : obj) !! k = None →
           updated !! k = Sample.challenge1 !! k)
      ∧ getChallengeById (VNum 1) st' = (Ok updated, st')
      ∧ (∀ id', id' ≠ VNum 1 →
           fst (getChallengeById id' st')
           = fst (getChallengeById id' Sample.challenges)).
Proof.
  assert (getChallengeById (VNum 1) Sample.challenges
          = (Ok Sample.challenge1, Sample.challenges)) as Hget by evaluate.
  assert (({["status" := VStr "done"]} : obj) !! "id" = None) as Hid
    by evaluate.
  split; [exact Hget|]. split; [exact Hid|].
  exact (updateChallenge_then_get (VNum 1) {["status" := VStr "done"]}
           Sample.challenge1 Sample.challenges Hget Hid).
Defined.

Lemma deleteChallenge_then_get_witness :
  getChallengeById (VNum 2) Sample.challenges
  = (Ok Sample.challenge2, Sample.challenges)
  ∧ ∃ confirmation st',
      deleteChallenge (VNum 2) Sample.challenges = (Ok confirmation, st')
      ∧ get confirmation "id" = VNum 2
      ∧ get confirmation "deleted" = VBool true
      ∧ getChallengeById (VNum 2) st' = (Throw (Error GET_NOT_FOUND), st')
      ∧ deleteChallenge (VNum 2) st' = (Throw (Error DELETE_NOT_FOUND), st')
      ∧ (∀ id', id' ≠ VNum 2 →
           fst (getChallengeById id' st')
           = fst (getChallengeById id' Sample.challenges)).
Proof.
  assert (getChallengeById (VNum 2) Sample.challenges
          = (Ok Sample.challenge2, Sample.challenges)) as Hget by evaluate.
  split; [exact Hget|].
  exact (deleteChallenge_then_get (VNum 2) Sample.challenge2
           Sample.challenges Hget).
Defined.

Lemma getAllChallenges_is_weekly_value_witness :
  VNull ≠ VUndefined
  ∧ ∃ l, getAllChallenges (Some {["is_weekly" := VNull]}) Sample.challenges
         = (Ok l, Sample.challenges)
       ∧ l ≡ₚ filter (λ row, column row "is_weekly" = VNull)
                (table Sample.challenges)
       ∧ newest_first l.
Proof.
  assert (VNull ≠ VUndefined) as Hv by discriminate.
  split; [exact Hv|].
  exact (getAllChallenges_is_weekly_value VNull Sample.challenges Hv).
Defined.
